(** * Server-side Logger engine of @dreamer/logger: shallow embedding

    The embedding follows the server module of the package (the [Logger]
    class with its helpers, and the console redirector): the formatter,
    the environment policy, the filter and sampler, the file output manager
    with rotation, the performance tracker and the redirection of the
    global console. Line numbers in the section titles are those of the
    module.

    Conventions.
    - A JavaScript string is the list of its UTF-16 code units ([jstring]);
      [length], [slice] and string concatenation are those of the list.
    - Integral JavaScript numbers (priorities, sizes, millisecond clocks,
      [maxFiles], [maxMessageLength]) are [Z]; the sampling rate and the
      values of [Math.random()] are rationals ([Q]), compared exactly.
    - A plain object used as a record of keys ([context], performance
      [data]) and the performance [Map] are insertion-ordered association
      lists, as both keep insertion order in JavaScript.
    - The [Set]s of include/exclude tags are [gset]s.
    - Everything outside the module (clock, random source, environment,
      file system of the runtime adapter, the console) lives in a [World]:
      oracles decide what a runtime call returns and whether it throws, and
      a chronological trace records every call the Logger makes.
    - An [async] method is run to completion where it is called; the
      interleaving of two pending log calls is not modelled.
    - [child] is the constructor run on the merged configuration; the
      [performance] wrapper takes the wrapped function as a state
      transformer whose outcome is a returned value, a fulfilled or
      rejected promise, or a synchronous exception; in the console
      forwarders, [String(x)] for a non-string first argument is a
      parameter ([String_of]). *)

From Stdlib Require Import ZArith QArith List Lia Bool.
From Stdlib Require Import Ascii String DecimalString.
From stdpp Require Import base option list gmap strings.

Close Scope Q_scope.
Open Scope nat_scope.

(** ** JavaScript strings *)

Abbreviation jstring := (list N).

(** An ASCII literal as a JavaScript string. *)
Definition js (s : string) : jstring :=
  (fun a => N_of_ascii a) <$> list_ascii_of_string s.

(** [`${n}`] for an integral number. *)
Definition Z_to_js (z : Z) : jstring :=
  js (NilZero.string_of_int (Z.to_int z)).

(** [s.startsWith(p)] *)
Fixpoint startsWith (p s : jstring) : bool :=
  match p, s with
  | [], _ => true
  | _ :: _, [] => false
  | a :: p', b :: s' => if decide (a = b) then startsWith p' s' else false
  end.

(** [s.includes(p)] *)
Fixpoint includes (s p : jstring) : bool :=
  startsWith p s ||
  match s with
  | [] => false
  | _ :: s' => includes s' p
  end.

(** [s.lastIndexOf(c)] for a one-unit needle; [-1] when absent. *)
Fixpoint lastIndexOf_from (i : Z) (s : jstring) (c : N) (found : Z) : Z :=
  match s with
  | [] => found
  | a :: s' =>
    lastIndexOf_from (i + 1)%Z s' c (if decide (a = c) then i else found)
  end.

Definition lastIndexOf (s : jstring) (c : N) : Z :=
  lastIndexOf_from 0%Z s c (-1)%Z.

(** [s.substring(0, e)] and [s.slice(0, e)] for an integral [e] (they differ
    for a negative [e] only: [substring] clamps it to 0, [slice] counts it
    from the end). *)
Definition substring0 (s : jstring) (e : Z) : jstring :=
  take (Z.to_nat e) s.

Definition slice0 (s : jstring) (e : Z) : jstring :=
  if (e <? 0)%Z then take (Z.to_nat (Z.of_nat (length s) + e)) s
  else take (Z.to_nat e) s.

(** [a.join(sep)] *)
Fixpoint join (sep : jstring) (l : list jstring) : jstring :=
  match l with
  | [] => []
  | [x] => x
  | x :: rest => x ++ sep ++ join sep rest
  end.

(** [s.toUpperCase()] on the ASCII letters (level names are ASCII). *)
Definition toUpperCase (s : jstring) : jstring :=
  (fun c => if ((97 <=? c) && (c <=? 122))%N then (c - 32)%N else c) <$> s.

(** ** JSON-like payloads and plain objects *)

#[warnings="-register-all"] Inductive json :=
| JNull
| JBool (b : bool)
| JNum (n : Z)
| JStr (s : jstring)
| JArr (items : list json)
| JObj (fields : list (jstring * json)).

Abbreviation jobject := (list (jstring * json)).

Section AssocList.
Context {V : Type}.

(** [m.get(k)] / [o[k]] *)
Fixpoint assoc_get (k : jstring) (m : list (jstring * V)) : option V :=
  match m with
  | [] => None
  | (k', v) :: rest => if decide (k' = k) then Some v else assoc_get k rest
  end.

(** [m.set(k, v)] / [o[k] = v]: an existing key keeps its position. *)
Fixpoint assoc_set (k : jstring) (v : V) (m : list (jstring * V))
  : list (jstring * V) :=
  match m with
  | [] => [(k, v)]
  | (k', v') :: rest =>
    if decide (k' = k) then (k, v) :: rest
    else (k', v') :: assoc_set k v rest
  end.

(** [m.delete(k)] *)
Fixpoint assoc_delete (k : jstring) (m : list (jstring * V))
  : list (jstring * V) :=
  match m with
  | [] => []
  | (k', v') :: rest =>
    if decide (k' = k) then assoc_delete k rest
    else (k', v') :: assoc_delete k rest
  end.

(** [{...a, ...b}] *)
Definition spread (a b : list (jstring * V)) : list (jstring * V) :=
  fold_left (fun acc kv => assoc_set kv.1 kv.2 acc) b a.
End AssocList.

(** ** Levels, formats, entries (lines 38-180) *)

Inductive LogLevel := Debug | Info | Warn | Error | Fatal.

Global Instance LogLevel_eq_dec : EqDecision LogLevel.
Proof. solve_decision. Defined.

Definition LOG_LEVELS (l : LogLevel) : Z :=
  match l with
  | Debug => 0
  | Info => 1
  | Warn => 2
  | Error => 3
  | Fatal => 4
  end%Z.

Definition MAX_PERFORMANCE_ENTRIES : Z := 1000.

Definition DEFAULT_MAX_MESSAGE_LENGTH : Z := 32 * 1024.

(** The level as the string it is in the source. *)
Definition level_name (l : LogLevel) : jstring :=
  match l with
  | Debug => js "debug"
  | Info => js "info"
  | Warn => js "warn"
  | Error => js "error"
  | Fatal => js "fatal"
  end.

Inductive LogFormat := TextFormat | JsonFormat | ColorFormat.

Inductive RotateStrategy := SizeStrategy | TimeStrategy | SizeTimeStrategy.

Definition strategy_name (s : RotateStrategy) : jstring :=
  match s with
  | SizeStrategy => js "size"
  | TimeStrategy => js "time"
  | SizeTimeStrategy => js "size-time"
  end.

(** An error value after the normalisation of [formatText]
    ([error instanceof Error ? error : new Error(String(error))]). *)
Record JsError := { err_stack : option jstring; err_message : jstring }.

Record LogEntry := {
  timestamp : jstring;
  level : LogLevel;
  message : jstring;
  data : option json;
  error : option JsError;
  tags : option (list jstring);
  context : option jobject
}.

(** A custom output function: the model keeps whether the call completes
    ([true]) or throws / rejects ([false]) on a given line. *)
Definition Sink := jstring -> bool.

Record FileConfig := {
  path : jstring;
  rotate : option bool;
  strategy : option RotateStrategy;
  maxSize : option Z;
  maxFiles : option Z;
  rotateInterval : option Z;
  compress : option bool
}.

Record LogOutputConfig := {
  out_auto : option bool;
  out_console : option bool;
  out_file : option FileConfig;
  out_custom : option Sink
}.

Record LogFilterConfig := {
  includeTags : option (list jstring);
  excludeTags : option (list jstring);
  filter_custom : option (LogEntry -> bool)
}.

Record LogSamplingConfig := {
  rate : Q;
  levels : option (list LogLevel)
}.

(** [LoggerConfig]: what the caller passes, every field optional. *)
Record LoggerConfig := {
  opt_level : option LogLevel;
  opt_format : option LogFormat;
  opt_output : option LogOutputConfig;
  opt_color : option bool;
  opt_showTime : option bool;
  opt_showLevel : option bool;
  opt_tags : option (list jstring);
  opt_context : option jobject;
  opt_filter : option LogFilterConfig;
  opt_sampling : option LogSamplingConfig;
  opt_maxMessageLength : option Z
}.

(** [new Logger()] / [createLogger()] with no argument: [{}]. *)
Definition empty_config : LoggerConfig :=
  {| opt_level := None; opt_format := None; opt_output := None;
     opt_color := None; opt_showTime := None; opt_showLevel := None;
     opt_tags := None; opt_context := None; opt_filter := None;
     opt_sampling := None; opt_maxMessageLength := None |}.

(** The type of [this.config]:
    [Required<Omit<LoggerConfig, "filter" | "sampling">>] plus the optional
    [filter], [sampling] and [maxMessageLength]. *)
Record Config := {
  cfg_level : LogLevel;
  cfg_format : LogFormat;
  cfg_output : LogOutputConfig;
  cfg_color : bool;
  cfg_showTime : bool;
  cfg_showLevel : bool;
  cfg_tags : list jstring;
  cfg_context : jobject;
  cfg_filter : option LogFilterConfig;
  cfg_sampling : option LogSamplingConfig;
  cfg_maxMessageLength : option Z
}.

(** [this.config] where a [LoggerConfig] is expected (structural typing):
    every field is present, [color] included. *)
Definition as_LoggerConfig (c : Config) : LoggerConfig :=
  {| opt_level := Some (cfg_level c);
     opt_format := Some (cfg_format c);
     opt_output := Some (cfg_output c);
     opt_color := Some (cfg_color c);
     opt_showTime := Some (cfg_showTime c);
     opt_showLevel := Some (cfg_showLevel c);
     opt_tags := Some (cfg_tags c);
     opt_context := Some (cfg_context c);
     opt_filter := cfg_filter c;
     opt_sampling := cfg_sampling c;
     opt_maxMessageLength := cfg_maxMessageLength c |}.

(** ** Built-ins of the JavaScript runtime

    [JSON.stringify] ([None] when it throws), [Date.prototype.toISOString]
    on a millisecond clock value, and the string of a fractional number. *)
Class Builtins := {
  JSON_stringify : json -> option jstring;
  toISOString : Z -> jstring;
  Number_toString : Q -> jstring
}.

(** ** The console and its redirection state (lines 192-213) *)

Inductive ConsoleMethod := c_log | c_info | c_warn | c_error | c_debug.

(** A Logger is referred to by an identifier; [default_logger] is the
    module's exported [logger]. *)
Definition LoggerRef := nat.
Definition default_logger : LoggerRef := 0.

(** The function objects that can sit in a console slot: a method of the
    runtime's console, [f.bind(console)], and the forwarders installed by
    [redirectConsoleToLogger]. *)
Inductive ConsoleFn :=
| Native (m : ConsoleMethod)
| Bound (f : ConsoleFn)
| Forwarder (target : LoggerRef) (to : LogLevel).

Record Console := {
  console_log : ConsoleFn;
  console_info : ConsoleFn;
  console_warn : ConsoleFn;
  console_error : ConsoleFn;
  console_debug : ConsoleFn
}.

Definition console_method (c : Console) (m : ConsoleMethod) : ConsoleFn :=
  match m with
  | c_log => console_log c
  | c_info => console_info c
  | c_warn => console_warn c
  | c_error => console_error c
  | c_debug => console_debug c
  end.

(** What calling a console function does: write through the runtime's own
    console method, or call a method of a Logger. *)
Inductive Behaviour :=
| WritesNative (m : ConsoleMethod)
| CallsLogger (target : LoggerRef) (to : LogLevel).

Fixpoint behaviour (f : ConsoleFn) : Behaviour :=
  match f with
  | Native m => WritesNative m
  | Bound g => behaviour g
  | Forwarder t l => CallsLogger t l
  end.

(** The console of the runtime before anything replaced its methods. *)
Definition native_console : Console :=
  {| console_log := Native c_log; console_info := Native c_info;
     console_warn := Native c_warn; console_error := Native c_error;
     console_debug := Native c_debug |}.

(** ** The world outside the module *)

(** An argument of a console call: a string, or a caught exception value. *)
Inductive ConsoleArg := ArgStr (s : jstring) | ArgThrown.

(** The calls the module makes to its environment. [ok = false] is a call
    that threw (or whose promise rejected). *)
Inductive Event :=
| EConsole (f : ConsoleFn) (args : list ConsoleArg)
| EMkdir (dir : jstring) (ok : bool)
| EOpen (p : jstring) (ok : bool)
| EWrite (fd : nat) (bytes_of : jstring) (ok : bool)
| EWriterClose (fd : nat) (ok : bool)
| EHandleClose (fd : nat) (ok : bool)
| ERename (old new : jstring) (ok : bool)
| EStat (p : jstring) (result : option Z)
| ESink (line : jstring) (ok : bool)
| ESetInterval (ms : Z)
| EClearInterval (id : nat).

Record World := {
  w_isTerminal : bool;               (* isTerminal() of the adapter *)
  w_NO_COLOR : option jstring;       (* getEnv("NO_COLOR") *)
  w_clock : nat -> Z;                (* the n-th reading of the clock *)
  w_ticks : nat;
  w_random : nat -> Q;               (* the n-th Math.random() *)
  w_draws : nat;
  w_fail : nat -> bool;              (* does the n-th traced call throw *)
  w_size : nat -> Z;                 (* size seen if the n-th call is stat *)
  w_trace : list Event;
  w_console : Console;               (* globalThis.console *)
  w_originalConsole : option Console (* _originalConsole *)
}.

Definition emit (e : Event) (w : World) : World :=
  {| w_isTerminal := w_isTerminal w; w_NO_COLOR := w_NO_COLOR w;
     w_clock := w_clock w; w_ticks := w_ticks w;
     w_random := w_random w; w_draws := w_draws w;
     w_fail := w_fail w; w_size := w_size w;
     w_trace := w_trace w ++ [e];
     w_console := w_console w;
     w_originalConsole := w_originalConsole w |}.

(** Whether the call about to be traced throws. *)
Definition next_fails (w : World) : bool := w_fail w (length (w_trace w)).

(** [Date.now()] *)
Definition Date_now (w : World) : Z * World :=
  (w_clock w (w_ticks w),
   {| w_isTerminal := w_isTerminal w; w_NO_COLOR := w_NO_COLOR w;
      w_clock := w_clock w; w_ticks := S (w_ticks w);
      w_random := w_random w; w_draws := w_draws w;
      w_fail := w_fail w; w_size := w_size w;
      w_trace := w_trace w;
      w_console := w_console w;
      w_originalConsole := w_originalConsole w |}).

(** [Math.random()] *)
Definition Math_random (w : World) : Q * World :=
  (w_random w (w_draws w),
   {| w_isTerminal := w_isTerminal w; w_NO_COLOR := w_NO_COLOR w;
      w_clock := w_clock w; w_ticks := w_ticks w;
      w_random := w_random w; w_draws := S (w_draws w);
      w_fail := w_fail w; w_size := w_size w;
      w_trace := w_trace w;
      w_console := w_console w;
      w_originalConsole := w_originalConsole w |}).

Definition set_consoles (c : Console) (o : option Console) (w : World)
  : World :=
  {| w_isTerminal := w_isTerminal w; w_NO_COLOR := w_NO_COLOR w;
     w_clock := w_clock w; w_ticks := w_ticks w;
     w_random := w_random w; w_draws := w_draws w;
     w_fail := w_fail w; w_size := w_size w;
     w_trace := w_trace w;
     w_console := c;
     w_originalConsole := o |}.

(** [getConsoleForOutput] (lines 207-213):
    [_originalConsole ?? globalThis.console]. *)
Definition getConsoleForOutput (w : World) : Console :=
  match w_originalConsole w with
  | Some c => c
  | None => w_console w
  end.

(** [getConsoleForOutput().m(...args)] *)
Definition console_out (m : ConsoleMethod) (args : list ConsoleArg)
  (w : World) : World :=
  emit (EConsole (console_method (getConsoleForOutput w) m) args) w.

(** ** Environment policy (lines 218-251) *)

Definition isTTY (w : World) : bool := w_isTerminal w.

(** Truthiness of [getEnv(name)]: defined and not the empty string. *)
Definition truthy_env (v : option jstring) : bool :=
  match v with
  | Some (_ :: _) => true
  | _ => false
  end.

Definition is_color_format (f : option LogFormat) : bool :=
  match f with
  | Some ColorFormat => true
  | _ => false
  end.

Definition shouldUseColor (config : LoggerConfig) (isFileOutput : bool)
  (w : World) : bool :=
  if isFileOutput then false
  else match opt_color config with
       | Some c => c
       | None =>
         if truthy_env (w_NO_COLOR w) then false
         else if is_color_format (opt_format config) && isTTY w then true
         else false
       end.

(** ** Formatter (lines 256-391) *)

Definition ESC : N := 27%N.

Definition ANSI_reset : jstring := ESC :: js "[0m".
Definition ANSI_bold : jstring := ESC :: js "[1m".
Definition ANSI_red : jstring := ESC :: js "[31m".
Definition ANSI_yellow : jstring := ESC :: js "[33m".
Definition ANSI_blue : jstring := ESC :: js "[34m".
Definition ANSI_gray : jstring := ESC :: js "[90m".

Definition getLevelColor (l : LogLevel) (useColor : bool) : jstring :=
  if negb useColor then []
  else match l with
       | Debug => ANSI_gray
       | Info => ANSI_blue
       | Warn => ANSI_yellow
       | Error => ANSI_red
       | Fatal => ANSI_red ++ ANSI_bold
       end.

Section Formatter.
Context `{Builtins}.

Definition safeStringify (v : json) : jstring :=
  match JSON_stringify v with
  | Some s => s
  | None => js "[Unserializable]"
  end.

(** [errorObj.stack || errorObj.message] *)
Definition stack_or_message (e : JsError) : jstring :=
  match err_stack e with
  | Some (c :: s) => c :: s
  | _ => err_message e
  end.

Definition formatText (entry : LogEntry) (useColor showTime showLevel : bool)
  : jstring :=
  let levelColor := getLevelColor (level entry) useColor in
  let reset := if useColor then ANSI_reset else [] in
  let levelLabel :=
    if showLevel
    then js "[" ++ levelColor ++ toUpperCase (level_name (level entry))
         ++ reset ++ js "] "
    else [] in
  let output :=
    if showTime
    then timestamp entry ++ js " " ++ levelLabel ++ message entry
    else levelLabel ++ message entry in
  let output :=
    match tags entry with
    | Some (t :: ts) => output ++ js " [" ++ join (js ", ") (t :: ts) ++ js "]"
    | _ => output
    end in
  let output :=
    match context entry with
    | Some (kv :: rest) => output ++ js " " ++ safeStringify (JObj (kv :: rest))
    | _ => output
    end in
  let output :=
    match data entry with
    | Some d => output ++ js " " ++ safeStringify d
    | None => output
    end in
  match error entry with
  | Some e => output ++ [10%N] ++ stack_or_message e
  | None => output
  end.

(** The entry as the object [JSON.stringify] sees: keys in creation
    order, [undefined] fields left out, an [Error] without enumerable
    properties. *)
Definition entry_object (entry : LogEntry) : json :=
  JObj ([(js "timestamp", JStr (timestamp entry));
         (js "level", JStr (level_name (level entry)));
         (js "message", JStr (message entry))]
        ++ match data entry with Some d => [(js "data", d)] | None => [] end
        ++ match error entry with
           | Some _ => [(js "error", JObj [])]
           | None => []
           end
        ++ match tags entry with
           | Some ts => [(js "tags", JArr (JStr <$> ts))]
           | None => []
           end
        ++ match context entry with
           | Some c => [(js "context", JObj c)]
           | None => []
           end).

Definition formatJSON (entry : LogEntry) : jstring :=
  safeStringify (entry_object entry).

Definition formatLog (entry : LogEntry) (format : LogFormat)
  (useColor showTime showLevel : bool) : jstring :=
  match format with
  | JsonFormat => formatJSON entry
  | ColorFormat | TextFormat => formatText entry useColor showTime showLevel
  end.
End Formatter.

(** ** Output routing (lines 410-446) *)

Definition DEFAULT_AUTO_FILE_PATH : jstring := js "./logs/app.log".

Definition default_file (p : jstring) : FileConfig :=
  {| path := p; rotate := None; strategy := None; maxSize := None;
     maxFiles := None; rotateInterval := None; compress := None |}.

Definition resolveOutputConfig (output : LogOutputConfig) (w : World)
  : LogOutputConfig :=
  match out_auto output with
  | Some true =>
    if isTTY w
    then {| out_auto := Some true; out_console := Some true;
            out_file := None; out_custom := out_custom output |}
    else {| out_auto := Some true; out_console := Some false;
            out_file := Some (match out_file output with
                              | Some f => f
                              | None => default_file DEFAULT_AUTO_FILE_PATH
                              end);
            out_custom := out_custom output |}
  | _ =>
    {| out_auto := out_auto output;
       out_console := Some (match out_console output with
                            | Some b => b
                            | None => true
                            end);
       out_file := out_file output;
       out_custom := out_custom output |}
  end.

(** ** Message literals of the source, as UTF-16 code units *)

(** "拒绝使用日志路径（含路径遍历）: " *)
Definition MSG_path_rejected : jstring :=
  [25298; 32477; 20351; 29992; 26085; 24535; 36335; 24452; 65288; 21547;
   36335; 24452; 36941; 21382; 65289; 58; 32]%N.
(** "无法打开日志文件 " *)
Definition MSG_cannot_open : jstring :=
  [26080; 27861; 25171; 24320; 26085; 24535; 25991; 20214; 32]%N.
(** "检查日志轮转失败:" *)
Definition MSG_check_rotation_failed : jstring :=
  [26816; 26597; 26085; 24535; 36718; 36716; 22833; 36133; 58]%N.
(** "日志压缩功能需要外部工具支持" *)
Definition MSG_compress_unsupported : jstring :=
  [26085; 24535; 21387; 32553; 21151; 33021; 38656; 35201; 22806; 37096;
   24037; 20855; 25903; 25345]%N.
(** "日志轮转失败:" *)
Definition MSG_rotation_failed : jstring :=
  [26085; 24535; 36718; 36716; 22833; 36133; 58]%N.
(** "性能监控 ID 不存在: " *)
Definition MSG_perf_id_missing : jstring :=
  [24615; 33021; 30417; 25511; 32; 73; 68; 32; 19981; 23384; 22312; 58; 32]%N.
(** "性能监控: " *)
Definition MSG_perf_prefix : jstring :=
  [24615; 33021; 30417; 25511; 58; 32]%N.
(** " 耗时 " *)
Definition MSG_perf_took : jstring := [32; 32791; 26102; 32]%N.
(** The truncation marker, U+2026. *)
Definition ELLIPSIS : jstring := [8230]%N.

(** ** The Logger object (lines 459-476) *)

Record PerformanceData := {
  operation : jstring;
  startTime : Z;
  endTime : option Z;
  duration : option Z;
  perf_data : option jobject
}.

Abbreviation PerformanceMap := (list (jstring * PerformanceData)).

Record Logger := {
  config : Config;
  fileHandle : option nat;
  fileWriter : option nat;
  filePath : option jstring;
  performanceData : PerformanceMap;
  logCount : Z;
  timeRotationTimerId : option nat;
  includeTagsSet : option (gset jstring);
  excludeTagsSet : option (gset jstring)
}.

(** A Logger together with the world it runs in. *)
Abbreviation St := (Logger * World)%type.

Definition set_config (c : Config) (lg : Logger) : Logger :=
  {| config := c; fileHandle := fileHandle lg; fileWriter := fileWriter lg;
     filePath := filePath lg; performanceData := performanceData lg;
     logCount := logCount lg; timeRotationTimerId := timeRotationTimerId lg;
     includeTagsSet := includeTagsSet lg;
     excludeTagsSet := excludeTagsSet lg |}.

Definition set_fileHandle (h : option nat) (lg : Logger) : Logger :=
  {| config := config lg; fileHandle := h; fileWriter := fileWriter lg;
     filePath := filePath lg; performanceData := performanceData lg;
     logCount := logCount lg; timeRotationTimerId := timeRotationTimerId lg;
     includeTagsSet := includeTagsSet lg;
     excludeTagsSet := excludeTagsSet lg |}.

Definition set_fileWriter (wr : option nat) (lg : Logger) : Logger :=
  {| config := config lg; fileHandle := fileHandle lg; fileWriter := wr;
     filePath := filePath lg; performanceData := performanceData lg;
     logCount := logCount lg; timeRotationTimerId := timeRotationTimerId lg;
     includeTagsSet := includeTagsSet lg;
     excludeTagsSet := excludeTagsSet lg |}.

Definition set_filePath (p : option jstring) (lg : Logger) : Logger :=
  {| config := config lg; fileHandle := fileHandle lg;
     fileWriter := fileWriter lg;
     filePath := p; performanceData := performanceData lg;
     logCount := logCount lg; timeRotationTimerId := timeRotationTimerId lg;
     includeTagsSet := includeTagsSet lg;
     excludeTagsSet := excludeTagsSet lg |}.

Definition set_performanceData (m : PerformanceMap) (lg : Logger) : Logger :=
  {| config := config lg; fileHandle := fileHandle lg;
     fileWriter := fileWriter lg;
     filePath := filePath lg; performanceData := m;
     logCount := logCount lg; timeRotationTimerId := timeRotationTimerId lg;
     includeTagsSet := includeTagsSet lg;
     excludeTagsSet := excludeTagsSet lg |}.

Definition set_logCount (n : Z) (lg : Logger) : Logger :=
  {| config := config lg; fileHandle := fileHandle lg;
     fileWriter := fileWriter lg;
     filePath := filePath lg; performanceData := performanceData lg;
     logCount := n; timeRotationTimerId := timeRotationTimerId lg;
     includeTagsSet := includeTagsSet lg;
     excludeTagsSet := excludeTagsSet lg |}.

Definition set_timeRotationTimerId (t : option nat) (lg : Logger) : Logger :=
  {| config := config lg; fileHandle := fileHandle lg;
     fileWriter := fileWriter lg;
     filePath := filePath lg; performanceData := performanceData lg;
     logCount := logCount lg; timeRotationTimerId := t;
     includeTagsSet := includeTagsSet lg;
     excludeTagsSet := excludeTagsSet lg |}.

Definition set_tagSets (i e : option (gset jstring)) (lg : Logger) : Logger :=
  {| config := config lg; fileHandle := fileHandle lg;
     fileWriter := fileWriter lg;
     filePath := filePath lg; performanceData := performanceData lg;
     logCount := logCount lg; timeRotationTimerId := timeRotationTimerId lg;
     includeTagsSet := i;
     excludeTagsSet := e |}.

(** JavaScript truthiness of the optional values the code tests. *)
Definition truthy_bool (b : option bool) : bool :=
  match b with Some true => true | _ => false end.

Definition truthy_string (s : option jstring) : bool :=
  match s with Some (_ :: _) => true | _ => false end.

(** [x || d] on an optional number: [undefined] and [0] give [d]. *)
Definition or_number (x : option Z) (d : Z) : Z :=
  match x with
  | Some v => if (v =? 0)%Z then d else v
  | None => d
  end.

(** ** File output manager (lines 517-587, 764-840) *)

Definition isAllowedLogPath (p : jstring) : bool :=
  if includes p (js "..") then false else true.

(** [initFileOutput]: the descriptor of an opened file is the position of
    its [open] call in the trace. *)
Definition initFileOutput (s : St) : St :=
  let '(lg, w) := s in
  match out_file (cfg_output (config lg)) with
  | None => s
  | Some f =>
    let p := path f in
    if negb (isAllowedLogPath p)
    then (lg, console_out c_error [ArgStr (MSG_path_rejected ++ p)] w)
    else
      let report :=
        console_out c_error
          [ArgStr (MSG_cannot_open ++ p ++ js ":"); ArgThrown] in
      let dir := substring0 p (lastIndexOf p 47%N) in
      let mkdir_ok :=
        match dir with [] => true | _ :: _ => negb (next_fails w) end in
      let w1 :=
        match dir with [] => w | _ :: _ => emit (EMkdir dir mkdir_ok) w end in
      if negb mkdir_ok then (lg, report w1)
      else
        let open_ok := negb (next_fails w1) in
        let fd := length (w_trace w1) in
        let w2 := emit (EOpen p open_ok) w1 in
        if negb open_ok then (lg, report w2)
        else (set_filePath (Some p)
                (set_fileWriter (Some fd) (set_fileHandle (Some fd) lg)), w2)
  end.

(** One [rename] inside its own [try], the error ignored. *)
Definition rename_ignoring (old new : jstring) (w : World) : World :=
  emit (ERename old new (negb (next_fails w))) w.

(** The loop [for (let i = maxFiles - 1; i >= 1; i--)] started at [i = n]. *)
Fixpoint shift_backups (n : nat) (p : jstring) (w : World) : World :=
  match n with
  | O => w
  | S k =>
    let i := Z.of_nat (S k) in
    shift_backups k p
      (rename_ignoring (p ++ js "." ++ Z_to_js i)
                       (p ++ js "." ++ Z_to_js (i + 1)) w)
  end.

Definition close_writer (s : St) : St :=
  let '(lg, w) := s in
  match fileWriter lg with
  | Some fd =>
    (set_fileWriter None lg, emit (EWriterClose fd (negb (next_fails w))) w)
  | None => s
  end.

Definition close_handle (s : St) : St :=
  let '(lg, w) := s in
  match fileHandle lg with
  | Some fd =>
    (set_fileHandle None lg, emit (EHandleClose fd (negb (next_fails w))) w)
  | None => s
  end.

Definition rotateLog (maxFiles : Z) (compress : bool) (s : St) : St :=
  match filePath s.1 with
  | None | Some [] => s
  | Some (c :: rest) =>
    let p := c :: rest in
    let '(lg, w) := close_handle (close_writer s) in
    let w := shift_backups (Z.to_nat (maxFiles - 1)) p w in
    let renamed := negb (next_fails w) in
    let w := emit (ERename p (p ++ js ".1") renamed) w in
    if renamed
    then
      let w :=
        if compress
        then console_out c_warn [ArgStr MSG_compress_unsupported] w
        else w in
      initFileOutput (lg, w)
    else
      let w := console_out c_error [ArgStr MSG_rotation_failed; ArgThrown] w in
      initFileOutput (lg, w)
  end.

Definition checkSizeRotation (s : St) : St :=
  let '(lg, w) := s in
  match out_file (cfg_output (config lg)), filePath lg with
  | Some f, Some (c :: rest) =>
    let p := c :: rest in
    let maxSize := default (10 * 1024 * 1024)%Z (maxSize f) in
    let maxFiles := default 5%Z (maxFiles f) in
    let compress := default false (compress f) in
    let stat_ok := negb (next_fails w) in
    let size := w_size w (length (w_trace w)) in
    let w1 := emit (EStat p (if stat_ok then Some size else None)) w in
    if negb stat_ok
    then (lg, console_out c_error
                [ArgStr MSG_check_rotation_failed; ArgThrown] w1)
    else if (size >=? maxSize)%Z then rotateLog maxFiles compress (lg, w1)
    else (lg, w1)
  | _, _ => s
  end.

Definition strategy_includes_time (st : option RotateStrategy) : bool :=
  match st with
  | Some x => includes (strategy_name x) (js "time")
  | None => false
  end.

(** [startTimeRotation]: the timer identifier is the position of the
    [setInterval] call in the trace. *)
Definition startTimeRotation (s : St) : St :=
  let '(lg, w) := s in
  let interval :=
    or_number
      (match out_file (cfg_output (config lg)) with
       | Some f => rotateInterval f
       | None => None
       end)
      (24 * 60 * 60 * 1000)%Z in
  (set_timeRotationTimerId (Some (length (w_trace w))) lg,
   emit (ESetInterval interval) w).

(** The callback given to [setInterval]: one firing of the timer. *)
Definition time_rotation_tick (s : St) : St :=
  match out_file (cfg_output (config s.1)) with
  | Some f =>
    if truthy_bool (rotate f) && strategy_includes_time (strategy f)
    then rotateLog (or_number (maxFiles f) 5%Z)
                   (truthy_bool (compress f)) s
    else s
  | None => s
  end.

(** ** Level gate, tag filter, sampler, truncation (lines 592-676) *)

Definition shouldLog (lg : Logger) (l : LogLevel) : bool :=
  (LOG_LEVELS l >=? LOG_LEVELS (cfg_level (config lg)))%Z.

(** [list?.length ? new Set(list) : undefined] *)
Definition tag_set (l : option (list jstring)) : option (gset jstring) :=
  match l with
  | Some (t :: ts) => Some (list_to_set (t :: ts))
  | _ => None
  end.

Definition updateFilterSets (lg : Logger) : Logger :=
  let f := cfg_filter (config lg) in
  set_tagSets (tag_set (f ≫= includeTags)) (tag_set (f ≫= excludeTags)) lg.

(** [entry.tags?.some((tag) => set.has(tag))], [undefined] read as false. *)
Definition some_tag_in (set : gset jstring) (ts : option (list jstring))
  : bool :=
  match ts with
  | Some l => existsb (fun t => bool_decide (t ∈ set)) l
  | None => false
  end.

Definition shouldFilterByTags (lg : Logger) (entry : LogEntry) : bool :=
  match cfg_filter (config lg) with
  | None => true
  | Some f =>
    if match excludeTagsSet lg with
       | Some ex => (0 <? size ex) && some_tag_in ex (tags entry)
       | None => false
       end
    then false
    else if match includeTagsSet lg with
            | Some inc => (0 <? size inc) && negb (some_tag_in inc (tags entry))
            | None => false
            end
    then false
    else match filter_custom f with
         | Some p => p entry
         | None => true
         end
  end.

(** [x < y] on the rationals. *)
Definition Qlt_bool (x y : Q) : bool := negb (Qle_bool y x).

Definition shouldSample (l : LogLevel) (s : St) : bool * St :=
  let '(lg, w) := s in
  match cfg_sampling (config lg) with
  | None => (true, s)
  | Some sampling =>
    if match levels sampling with
       | Some (x :: xs) => negb (bool_decide (l ∈ x :: xs))
       | _ => false
       end
    then (true, s)
    else
      let lg := set_logCount (logCount lg + 1)%Z lg in
      let '(r, w) := Math_random w in
      (Qlt_bool r (rate sampling), (lg, w))
  end.

Definition set_message (m : jstring) (entry : LogEntry) : LogEntry :=
  {| timestamp := timestamp entry; level := level entry; message := m;
     data := data entry; error := error entry; tags := tags entry;
     context := context entry |}.

Definition truncateMessageIfNeeded (lg : Logger) (entry : LogEntry)
  : LogEntry :=
  let max := default 0%Z (cfg_maxMessageLength (config lg)) in
  if (max <=? 0)%Z || (Z.of_nat (length (message entry)) <=? max)%Z
  then entry
  else set_message (slice0 (message entry) max ++ ELLIPSIS) entry.

(** ** The pipeline (lines 681-759) *)

(** [{...entry, tags: [...config.tags, ...(entry.tags || [])],
      context: {...config.context, ...entry.context}}] *)
Definition merge_entry (lg : Logger) (entry : LogEntry) : LogEntry :=
  {| timestamp := timestamp entry; level := level entry;
     message := message entry; data := data entry; error := error entry;
     tags := Some (cfg_tags (config lg) ++ default [] (tags entry));
     context := Some (spread (cfg_context (config lg))
                             (default [] (context entry))) |}.

Section Pipeline.
Context `{Builtins}.

(** The console block of [writeLog]. Neither the formatter nor a console
    call throws in the model, so the [catch] is not reached. *)
Definition write_console (finalEntry : LogEntry) (s : St) : St :=
  let '(lg, w) := s in
  let c := config lg in
  if truthy_bool (out_console (cfg_output c))
  then
    let useColor := shouldUseColor (as_LoggerConfig c) false w in
    let line := formatLog finalEntry (cfg_format c) useColor
                  (cfg_showTime c) (cfg_showLevel c) in
    (lg, console_out c_log [ArgStr line] w)
  else s.

(** The file block: the bytes written are the encoding of the traced
    line. *)
Definition write_file (finalEntry : LogEntry) (s : St) : St :=
  let '(lg, w) := s in
  let c := config lg in
  match out_file (cfg_output c), fileWriter lg with
  | Some f, Some fd =>
    let line := formatLog finalEntry TextFormat false
                  (cfg_showTime c) (cfg_showLevel c) in
    let ok := negb (next_fails w) in
    let w1 := emit (EWrite fd (line ++ [10%N]) ok) w in
    if negb ok
    then (lg, console_out c_error
                [ArgStr (js "logger file output error"); ArgThrown] w1)
    else if truthy_bool (rotate f)
    then match default SizeStrategy (strategy f) with
         | SizeStrategy | SizeTimeStrategy => checkSizeRotation (lg, w1)
         | TimeStrategy => (lg, w1)
         end
    else (lg, w1)
  | _, _ => s
  end.

(** The custom block. *)
Definition write_custom (finalEntry : LogEntry) (s : St) : St :=
  let '(lg, w) := s in
  let c := config lg in
  match out_custom (cfg_output c) with
  | Some sink =>
    let useColor := shouldUseColor (as_LoggerConfig c) false w in
    let line := formatLog finalEntry (cfg_format c) useColor
                  (cfg_showTime c) (cfg_showLevel c) in
    let ok := sink line in
    let w1 := emit (ESink line ok) w in
    if ok then (lg, w1)
    else (lg, console_out c_error
                [ArgStr (js "logger custom output error"); ArgThrown] w1)
  | None => s
  end.

(** The three output blocks, in the order of the source. *)
Definition dispatch (finalEntry : LogEntry) (s : St) : St :=
  write_custom finalEntry
    (write_file finalEntry (write_console finalEntry s)).

Definition writeLog (entry : LogEntry) (s : St) : St :=
  if negb (shouldLog s.1 (level entry)) then s
  else
    let merged := merge_entry s.1 entry in
    if negb (shouldFilterByTags s.1 merged) then s
    else
      let '(sampled, s1) := shouldSample (level merged) s in
      if negb sampled then s1
      else
        dispatch (truncateMessageIfNeeded s1.1 merged) s1.

(** [log]: [new Date().toISOString()] reads the clock once. *)
Definition log (l : LogLevel) (msg : jstring) (d : option json)
  (e : option JsError) (s : St) : St :=
  let '(lg, w) := s in
  let '(now, w) := Date_now w in
  writeLog {| timestamp := toISOString now; level := l; message := msg;
              data := d; error := e; tags := None; context := None |}
           (lg, w).

Definition Logger_debug := log Debug.
Definition Logger_info := log Info.
Definition Logger_warn := log Warn.
Definition Logger_error := log Error.
Definition Logger_fatal := log Fatal.
End Pipeline.

(** ** Configuration accessors (lines 925-967, 1090-1114) *)

Definition with_level (l : LogLevel) (c : Config) : Config :=
  {| cfg_level := l; cfg_format := cfg_format c; cfg_output := cfg_output c;
     cfg_color := cfg_color c; cfg_showTime := cfg_showTime c;
     cfg_showLevel := cfg_showLevel c; cfg_tags := cfg_tags c;
     cfg_context := cfg_context c; cfg_filter := cfg_filter c;
     cfg_sampling := cfg_sampling c;
     cfg_maxMessageLength := cfg_maxMessageLength c |}.

Definition with_tags (t : list jstring) (c : Config) : Config :=
  {| cfg_level := cfg_level c; cfg_format := cfg_format c;
     cfg_output := cfg_output c;
     cfg_color := cfg_color c; cfg_showTime := cfg_showTime c;
     cfg_showLevel := cfg_showLevel c; cfg_tags := t;
     cfg_context := cfg_context c; cfg_filter := cfg_filter c;
     cfg_sampling := cfg_sampling c;
     cfg_maxMessageLength := cfg_maxMessageLength c |}.

Definition with_context (x : jobject) (c : Config) : Config :=
  {| cfg_level := cfg_level c; cfg_format := cfg_format c;
     cfg_output := cfg_output c;
     cfg_color := cfg_color c; cfg_showTime := cfg_showTime c;
     cfg_showLevel := cfg_showLevel c; cfg_tags := cfg_tags c;
     cfg_context := x; cfg_filter := cfg_filter c;
     cfg_sampling := cfg_sampling c;
     cfg_maxMessageLength := cfg_maxMessageLength c |}.

Definition with_filter (f : option LogFilterConfig) (c : Config) : Config :=
  {| cfg_level := cfg_level c; cfg_format := cfg_format c;
     cfg_output := cfg_output c;
     cfg_color := cfg_color c; cfg_showTime := cfg_showTime c;
     cfg_showLevel := cfg_showLevel c; cfg_tags := cfg_tags c;
     cfg_context := cfg_context c; cfg_filter := f;
     cfg_sampling := cfg_sampling c;
     cfg_maxMessageLength := cfg_maxMessageLength c |}.

Definition with_sampling (sa : option LogSamplingConfig) (c : Config)
  : Config :=
  {| cfg_level := cfg_level c; cfg_format := cfg_format c;
     cfg_output := cfg_output c;
     cfg_color := cfg_color c; cfg_showTime := cfg_showTime c;
     cfg_showLevel := cfg_showLevel c; cfg_tags := cfg_tags c;
     cfg_context := cfg_context c; cfg_filter := cfg_filter c;
     cfg_sampling := sa;
     cfg_maxMessageLength := cfg_maxMessageLength c |}.

Definition setLevel (l : LogLevel) (lg : Logger) : Logger :=
  set_config (with_level l (config lg)) lg.

Definition getLevel (lg : Logger) : LogLevel := cfg_level (config lg).

Definition setContext (x : jobject) (lg : Logger) : Logger :=
  set_config (with_context (spread (cfg_context (config lg)) x) (config lg)) lg.

Definition getContext (lg : Logger) : jobject := cfg_context (config lg).

Definition addTag (t : jstring) (lg : Logger) : Logger :=
  if bool_decide (t ∈ cfg_tags (config lg)) then lg
  else set_config (with_tags (cfg_tags (config lg) ++ [t]) (config lg)) lg.

(** [tags.splice(tags.indexOf(tag), 1)]: the first occurrence goes. *)
Fixpoint remove_first (t : jstring) (l : list jstring) : list jstring :=
  match l with
  | [] => []
  | x :: rest => if decide (x = t) then rest else x :: remove_first t rest
  end.

Definition removeTag (t : jstring) (lg : Logger) : Logger :=
  set_config (with_tags (remove_first t (cfg_tags (config lg))) (config lg)) lg.

Definition setFilter (f : LogFilterConfig) (lg : Logger) : Logger :=
  updateFilterSets (set_config (with_filter (Some f) (config lg)) lg).

Definition getFilter (lg : Logger) : option LogFilterConfig :=
  cfg_filter (config lg).

Definition setSampling (sa : LogSamplingConfig) (lg : Logger) : Logger :=
  set_config (with_sampling (Some sa) (config lg)) lg.

Definition getSampling (lg : Logger) : option LogSamplingConfig :=
  cfg_sampling (config lg).

(** ** Performance tracker (lines 989-1053) *)

Section Performance.
Context `{Builtins}.

(** The map after the capacity check of [startPerformance]. *)
Definition evict_oldest (m : PerformanceMap) : PerformanceMap :=
  if (Z.of_nat (length m) >=? MAX_PERFORMANCE_ENTRIES)%Z
  then match m with
       | (firstKey, _) :: _ => assoc_delete firstKey m
       | [] => m
       end
  else m.

Definition startPerformance (op : jstring) (d : option jobject) (s : St)
  : jstring * St :=
  let '(lg, w) := s in
  let m := evict_oldest (performanceData lg) in
  let '(t_id, w) := Date_now w in
  let '(r, w) := Math_random w in
  let id := op ++ js "-" ++ Z_to_js t_id ++ js "-" ++ Number_toString r in
  let '(t_start, w) := Date_now w in
  let record := {| operation := op; startTime := t_start; endTime := None;
                   duration := None; perf_data := d |} in
  (id, (set_performanceData (assoc_set id record m) lg, w)).

(** The message and the data of the log issued for a finished timer. *)
Definition perf_message (op : jstring) (dur : Z) : jstring :=
  MSG_perf_prefix ++ op ++ MSG_perf_took ++ Z_to_js dur ++ js "ms".

Definition perf_payload (p : PerformanceData) (dur endT : Z) : jobject :=
  assoc_set (js "endTime") (JNum endT)
    (assoc_set (js "startTime") (JNum (startTime p))
       (assoc_set (js "duration") (JNum dur)
          (default [] (perf_data p)))).

Definition endPerformance (id : jstring) (l : LogLevel) (s : St) : St :=
  let '(lg, w) := s in
  match assoc_get id (performanceData lg) with
  | None => Logger_warn (MSG_perf_id_missing ++ id) None None s
  | Some perfData =>
    let '(endT, w) := Date_now w in
    let dur := (endT - startTime perfData)%Z in
    (* perfData.endTime = endTime; perfData.duration = duration:
       the record in the map is the object mutated *)
    let finished := {| operation := operation perfData;
                       startTime := startTime perfData;
                       endTime := Some endT; duration := Some dur;
                       perf_data := perf_data perfData |} in
    let lg := set_performanceData
                (assoc_set id finished (performanceData lg)) lg in
    let msg := perf_message (operation perfData) dur in
    let payload := Some (JObj (perf_payload perfData dur endT)) in
    let '(lg, w) :=
      match l with
      | Debug => Logger_debug msg payload None (lg, w)
      | Info => Logger_info msg payload None (lg, w)
      | Warn => Logger_warn msg payload None (lg, w)
      | Error => Logger_error msg payload None (lg, w)
      | Fatal => Logger_fatal msg payload None (lg, w)
      end in
    (set_performanceData (assoc_delete id (performanceData lg)) lg, w)
  end.
End Performance.

(** ** Construction and teardown (lines 478-509, 1119-1143) *)

Definition close (s : St) : St :=
  let '(lg, w) := s in
  let s :=
    match timeRotationTimerId lg with
    | Some t => (set_timeRotationTimerId None lg, emit (EClearInterval t) w)
    | None => s
    end in
  close_handle (close_writer s).

(** The object assigned to [this.config] by the constructor. *)
Definition initial_config (cfg : LoggerConfig) (w : World) : Config :=
  let rawOutput :=
    default {| out_auto := None; out_console := Some true;
               out_file := None; out_custom := None |} (opt_output cfg) in
  let resolvedOutput := resolveOutputConfig rawOutput w in
  {| cfg_level := default Info (opt_level cfg);
     cfg_format := default TextFormat (opt_format cfg);
     cfg_output := resolvedOutput;
     cfg_color := match opt_color cfg with
                  | Some b => b
                  | None => is_color_format (opt_format cfg) && isTTY w
                  end;
     cfg_showTime := default true (opt_showTime cfg);
     cfg_showLevel := default true (opt_showLevel cfg);
     cfg_tags := default [] (opt_tags cfg);
     cfg_context := default [] (opt_context cfg);
     cfg_filter := opt_filter cfg;
     cfg_sampling := opt_sampling cfg;
     cfg_maxMessageLength :=
       Some (default DEFAULT_MAX_MESSAGE_LENGTH
                     (opt_maxMessageLength cfg)) |}.

Definition constructor (cfg : LoggerConfig) (w : World) : St :=
  let lg :=
    updateFilterSets
      {| config := initial_config cfg w;
         fileHandle := None; fileWriter := None;
         filePath := None; performanceData := []; logCount := 0;
         timeRotationTimerId := None;
         includeTagsSet := None; excludeTagsSet := None |} in
  match out_file (cfg_output (config lg)) with
  | Some f =>
    let s := initFileOutput (lg, w) in
    if truthy_bool (rotate f) && strategy_includes_time (strategy f)
    then startTimeRotation s
    else s
  | None => (lg, w)
  end.

Definition createLogger := constructor.

(** ** Console redirector (lines 1195-1246) *)

Definition redirectConsoleToLogger (targetLogger : option LoggerRef)
  (w : World) : World :=
  let log := default default_logger targetLogger in
  let g := w_console w in
  set_consoles
    {| console_log := Forwarder log Info;
       console_info := Forwarder log Info;
       console_warn := Forwarder log Warn;
       console_error := Forwarder log Error;
       console_debug := Forwarder log Debug |}
    (Some {| console_log := Bound (console_log g);
             console_info := Bound (console_info g);
             console_warn := Bound (console_warn g);
             console_error := Bound (console_error g);
             console_debug := Bound (console_debug g) |})
    w.

Definition restoreConsole (w : World) : World :=
  match w_originalConsole w with
  | Some o =>
    set_consoles
      {| console_log := console_log o; console_info := console_info o;
         console_warn := console_warn o; console_error := console_error o;
         console_debug := console_debug o |}
      None w
  | None => w
  end.

(** ** Child loggers (lines 972-980) *)

(** A key of [{...base, ...over}]: the overriding object's value when it
    has the key. *)
Definition override {A} (over base : option A) : option A :=
  match over with
  | Some x => Some x
  | None => base
  end.

(** [child(config)]: the object literal handed to [new Logger]. *)
Definition child_config (cfg : LoggerConfig) (lg : Logger) : LoggerConfig :=
  let base := as_LoggerConfig (config lg) in
  {| opt_level := override (opt_level cfg) (opt_level base);
     opt_format := override (opt_format cfg) (opt_format base);
     opt_output := override (opt_output cfg) (opt_output base);
     opt_color := override (opt_color cfg) (opt_color base);
     opt_showTime := override (opt_showTime cfg) (opt_showTime base);
     opt_showLevel := override (opt_showLevel cfg) (opt_showLevel base);
     opt_tags := Some (cfg_tags (config lg) ++ default [] (opt_tags cfg));
     opt_context := Some (spread (cfg_context (config lg))
                                 (default [] (opt_context cfg)));
     opt_filter := override (opt_filter cfg) (opt_filter base);
     opt_sampling := override (opt_sampling cfg) (opt_sampling base);
     opt_maxMessageLength :=
       match opt_maxMessageLength cfg with
       | Some m => Some m
       | None => cfg_maxMessageLength (config lg)
       end |}.

(** [child]: the new Logger and the world after its construction; the
    parent is not modified. *)
Definition child (cfg : LoggerConfig) (lg : Logger) (w : World) : St :=
  constructor (child_config cfg lg) w.

(** ** The timing wrapper (lines 1062-1085) *)

(** What a call of the wrapped function comes to: a plain value, a promise
    (followed to its settlement), or an exception. *)
Inductive Outcome (R E : Type) :=
| Returned (r : R)
| Fulfilled (r : R)
| Rejected (e : E)
| Threw (e : E).

Arguments Returned {R E} r.
Arguments Fulfilled {R E} r.
Arguments Rejected {R E} e.
Arguments Threw {R E} e.

Section Wrapper.
Context `{Builtins} {R E : Type}.

(** [performance(operation, level)(fn)(...args)], [fn] applied to its
    arguments being a computation on the Logger and the world. *)
Definition performance (op : jstring) (l : LogLevel)
  (fn : St → Outcome R E * St) (s : St) : Outcome R E * St :=
  let '(id, s) := startPerformance op None s in
  let '(result, s) := fn s in
  match result with
  | Fulfilled _ | Rejected _ => (result, endPerformance id l s)
  | Returned _ => (result, endPerformance id l s)
  | Threw _ => (result, endPerformance id Error s)
  end.

End Wrapper.

(** ** Console forwarders (lines 1168-1181, 1208-1227) *)

Section Forwarders.
Context `{Builtins}.
(** [String(v)] for a value that is not a string. *)
Variable String_of : json → jstring.

Definition formatConsoleArgs (args : list json) : jstring * option json :=
  match args with
  | [] => ([], None)
  | first :: rest =>
    let message := match first with JStr s => s | _ => String_of first end in
    match rest with
    | [] => (message, None)
    | [second] => (message, Some second)
    | _ => (message, Some (JArr rest))
    end
  end.

(** The body of the forwarder installed for a console method: the call of
    the target Logger's method, on the target Logger. *)
Definition forwarder_call (to : LogLevel) (args : list json) (s : St) : St :=
  let '(message, data) := formatConsoleArgs args in
  log to message data None s.

End Forwarders.

(** * Vocabulary of the statements

    Predicates and sample inputs used by the properties below. *)

(** [s'] differs from [s] by a longer trace and by the file handle, writer
    and path of the Logger at most. *)
Record io_frame (s s' : St) : Prop := {
  fr_config : config s'.1 = config s.1;
  fr_logCount : logCount s'.1 = logCount s.1;
  fr_performanceData : performanceData s'.1 = performanceData s.1;
  fr_includeTagsSet : includeTagsSet s'.1 = includeTagsSet s.1;
  fr_excludeTagsSet : excludeTagsSet s'.1 = excludeTagsSet s.1;
  fr_timer : timeRotationTimerId s'.1 = timeRotationTimerId s.1;
  fr_isTerminal : w_isTerminal s'.2 = w_isTerminal s.2;
  fr_NO_COLOR : w_NO_COLOR s'.2 = w_NO_COLOR s.2;
  fr_clock : w_clock s'.2 = w_clock s.2;
  fr_ticks : w_ticks s'.2 = w_ticks s.2;
  fr_random : w_random s'.2 = w_random s.2;
  fr_draws : w_draws s'.2 = w_draws s.2;
  fr_fail : w_fail s'.2 = w_fail s.2;
  fr_size : w_size s'.2 = w_size s.2;
  fr_console : w_console s'.2 = w_console s.2;
  fr_originalConsole : w_originalConsole s'.2 = w_originalConsole s.2;
  fr_trace : w_trace s.2 `prefix_of` w_trace s'.2
}.

(** Stand-ins for the built-ins: every payload prints as [{}], the clock
    value [t] as [Tt], every fractional number as [0.5]. *)
Definition sample_builtins : Builtins :=
  {| JSON_stringify := fun _ => Some (js "{}");
     toISOString := fun t => js "T" ++ Z_to_js t;
     Number_toString := fun _ => js "0.5" |}.

(** An interactive terminal, a clock advancing by 100 ms per reading, no
    failing runtime call, the pristine console. *)
Definition sample_world : World :=
  {| w_isTerminal := true; w_NO_COLOR := None;
     w_clock := fun n => Z.of_nat (100 * n);
     w_ticks := 0; w_random := fun _ => (1 # 2)%Q; w_draws := 0;
     w_fail := fun _ => false; w_size := fun _ => 0%Z;
     w_trace := []; w_console := native_console;
     w_originalConsole := None |}.

(** An entry as [writeLog] receives it, stamped [T0]. *)
Definition sample_entry (l : LogLevel) (msg : jstring)
  (ts : list jstring) : LogEntry :=
  {| timestamp := js "T0"; level := l; message := msg; data := None;
     error := None; tags := Some ts; context := None |}.

(** The include/exclude sets are the ones derived from the current filter;
    the constructor and [setFilter] establish this, and no other method
    touches the filter or the sets. *)
Definition filter_sets_fresh (lg : Logger) : Prop :=
  updateFilterSets lg = lg.

(** [{includeTags: ["api"], excludeTags: ["noisy"]}] *)
Definition sample_filter : LogFilterConfig :=
  {| includeTags := Some [js "api"]; excludeTags := Some [js "noisy"];
     filter_custom := None |}.

(** Whether the sampler treats a call at level [l]: a sampling
    configuration is set and its level list is absent, empty, or has [l]. *)
Definition sampling_applies (lg : Logger) (l : LogLevel) : bool :=
  match cfg_sampling (config lg) with
  | None => false
  | Some sampling =>
    match levels sampling with
    | Some (x :: xs) => bool_decide (l ∈ x :: xs)
    | _ => true
    end
  end.

(** A call that produced nothing: the Logger is as before and no call was
    made to the console, the file or the custom output. *)
Definition suppressed (s s' : St) : Prop :=
  s'.1 = s.1 ∧ w_trace s'.2 = w_trace s.2.

Section Delivery.
Context `{Builtins}.

(** The line a Logger prints for [fe] on the console and the custom
    output, and the line it writes to its file. *)
Definition console_line (fe : LogEntry) (s : St) : jstring :=
  let c := config s.1 in
  formatLog fe (cfg_format c) (shouldUseColor (as_LoggerConfig c) false s.2)
    (cfg_showTime c) (cfg_showLevel c).

Definition file_line (fe : LogEntry) (s : St) : jstring :=
  let c := config s.1 in
  formatLog fe TextFormat false (cfg_showTime c) (cfg_showLevel c)
  ++ [10%N].

(** [fe] reached every active target: the calls made from [s] to [s']
    contain the console line if console output is on, the write of the
    file line if a file is configured and its writer is open, and the
    call of the custom output if there is one. *)
Definition delivered (fe : LogEntry) (s s' : St) : Prop :=
  ∃ evs, w_trace s'.2 = w_trace s.2 ++ evs
  ∧ (truthy_bool (out_console (cfg_output (config s.1))) = true →
       EConsole (console_method (getConsoleForOutput s.2) c_log)
                [ArgStr (console_line fe s)] ∈ evs)
  ∧ (∀ f fd, out_file (cfg_output (config s.1)) = Some f →
       fileWriter s.1 = Some fd →
       ∃ ok, EWrite fd (file_line fe s) ok ∈ evs)
  ∧ (∀ sink, out_custom (cfg_output (config s.1)) = Some sink →
       ESink (console_line fe s) (sink (console_line fe s)) ∈ evs).

End Delivery.

(** The entry [log] builds for a call, and the entry handed to the
    targets once merged and truncated. *)
Definition entry_of_call `{Builtins} (l : LogLevel) (msg : jstring)
  (d : option json) (e : option JsError) (w : World) : LogEntry :=
  {| timestamp := toISOString (Date_now w).1; level := l; message := msg;
     data := d; error := e; tags := None; context := None |}.

Definition final_entry (lg : Logger) (entry : LogEntry) : LogEntry :=
  truncateMessageIfNeeded lg (merge_entry lg entry).

(** [{rate: 0.25, levels: ["info"]}] *)
Definition sample_sampling : LogSamplingConfig :=
  {| rate := (1 # 4)%Q; levels := Some [Info] |}.

(** The record as [endPerformance] leaves it before logging. *)
Definition finished (p : PerformanceData) (endT : Z) : PerformanceData :=
  {| operation := operation p; startTime := startTime p;
     endTime := Some endT; duration := Some (endT - startTime p)%Z;
     perf_data := perf_data p |}.

(** The calls a client can make on a Logger, and a firing of the rotation
    timer. *)
Inductive Call :=
| CallLog (l : LogLevel) (msg : jstring) (d : option json)
          (e : option JsError)
| CallSetLevel (l : LogLevel)
| CallSetContext (x : jobject)
| CallAddTag (t : jstring)
| CallRemoveTag (t : jstring)
| CallSetFilter (f : LogFilterConfig)
| CallSetSampling (sa : LogSamplingConfig)
| CallStartPerformance (op : jstring) (d : option jobject)
| CallEndPerformance (id : jstring) (l : LogLevel)
| TimerFires
| CallClose.

Definition step `{Builtins} (c : Call) (s : St) : St :=
  match c with
  | CallLog l msg d e => log l msg d e s
  | CallSetLevel l => (setLevel l s.1, s.2)
  | CallSetContext x => (setContext x s.1, s.2)
  | CallAddTag t => (addTag t s.1, s.2)
  | CallRemoveTag t => (removeTag t s.1, s.2)
  | CallSetFilter f => (setFilter f s.1, s.2)
  | CallSetSampling sa => (setSampling sa s.1, s.2)
  | CallStartPerformance op d => (startPerformance op d s).2
  | CallEndPerformance id l => endPerformance id l s
  | TimerFires => time_rotation_tick s
  | CallClose => close s
  end.

Definition run `{Builtins} (calls : list Call) (s : St) : St :=
  fold_left (fun s c => step c s) calls s.

(** The invariant: distinct keys, at most [MAX_PERFORMANCE_ENTRIES]. *)
Definition perf_map_ok (m : PerformanceMap) : Prop :=
  NoDup m.*1 ∧ (Z.of_nat (length m) <= MAX_PERFORMANCE_ENTRIES)%Z.

(** [`${path}.${i}`] *)
Definition backup_path (p : jstring) (i : nat) : jstring :=
  p ++ js "." ++ Z_to_js (Z.of_nat i).

(** A traced call without its outcome. *)
Definition erase_outcome (e : Event) : Event :=
  match e with
  | EMkdir d _ => EMkdir d true
  | EOpen p _ => EOpen p true
  | EWrite fd b _ => EWrite fd b true
  | EWriterClose fd _ => EWriterClose fd true
  | EHandleClose fd _ => EHandleClose fd true
  | ERename a b _ => ERename a b true
  | EStat p _ => EStat p None
  | ESink l _ => ESink l true
  | other => other
  end.

(** A Logger writing to ["app.log"] with time-based rotation, in a world
    where the first runtime call (the [open] of the constructor) fails. *)
Definition rotating_config : LoggerConfig :=
  {| opt_level := None; opt_format := None;
     opt_output :=
       Some {| out_auto := None; out_console := Some false;
               out_file :=
                 Some {| path := js "app.log"; rotate := Some true;
                         strategy := Some TimeStrategy; maxSize := None;
                         maxFiles := Some 3%Z; rotateInterval := None;
                         compress := None |};
               out_custom := None |};
     opt_color := None; opt_showTime := None; opt_showLevel := None;
     opt_tags := None; opt_context := None; opt_filter := None;
     opt_sampling := None; opt_maxMessageLength := None |}.

Definition with_fail (fails : nat → bool) (w : World) : World :=
  {| w_isTerminal := w_isTerminal w; w_NO_COLOR := w_NO_COLOR w;
     w_clock := w_clock w; w_ticks := w_ticks w;
     w_random := w_random w; w_draws := w_draws w;
     w_fail := fails; w_size := w_size w;
     w_trace := w_trace w;
     w_console := w_console w;
     w_originalConsole := w_originalConsole w |}.

Definition first_call_fails : World :=
  with_fail (fun n => Nat.eqb n 0) sample_world.

(** The Logger method a forwarder installed for console method [m] calls. *)
Definition forwarded_level (m : ConsoleMethod) : LogLevel :=
  match m with
  | c_log | c_info => Info
  | c_warn => Warn
  | c_error => Error
  | c_debug => Debug
  end.

(** [{format: "color"}] *)
Definition color_config : LoggerConfig :=
  {| opt_level := None; opt_format := Some ColorFormat; opt_output := None;
     opt_color := None; opt_showTime := None; opt_showLevel := None;
     opt_tags := None; opt_context := None; opt_filter := None;
     opt_sampling := None; opt_maxMessageLength := None |}.

Definition with_NO_COLOR (v : option jstring) (w : World) : World :=
  {| w_isTerminal := w_isTerminal w; w_NO_COLOR := v;
     w_clock := w_clock w; w_ticks := w_ticks w;
     w_random := w_random w; w_draws := w_draws w;
     w_fail := w_fail w; w_size := w_size w;
     w_trace := w_trace w;
     w_console := w_console w;
     w_originalConsole := w_originalConsole w |}.

(** How often a tag occurs in a tag list. *)
Definition occurrences (t : jstring) (l : list jstring) : nat :=
  length (filter (fun x => x = t) l).

(** The calls that go to the file system of the runtime adapter. *)
Definition file_event (e : Event) : bool :=
  match e with
  | EMkdir _ _ | EOpen _ _ | EWrite _ _ _ | EWriterClose _ _
  | EHandleClose _ _ | ERename _ _ _ | EStat _ _ => true
  | _ => false
  end.

(** A Logger with no file output in use: no handle, no writer, no recorded
    path. *)
Definition no_file (lg : Logger) : Prop :=
  fileWriter lg = None ∧ fileHandle lg = None ∧ filePath lg = None.

(** [s'] was reached from [s] without any call to the file system. *)
Definition no_file_io (s s' : St) : Prop :=
  ∃ evs, w_trace s'.2 = w_trace s.2 ++ evs
         ∧ Forall (fun e => file_event e = false) evs.

(** A file output whose path climbs out of its directory. *)
Definition traversal_config : LoggerConfig :=
  {| opt_level := None; opt_format := None;
     opt_output :=
       Some {| out_auto := None; out_console := Some true;
               out_file := Some (default_file (js "logs/../../etc/app.log"));
               out_custom := None |};
     opt_color := None; opt_showTime := None; opt_showLevel := None;
     opt_tags := None; opt_context := None; opt_filter := None;
     opt_sampling := None; opt_maxMessageLength := None |}.

(** A performance map at capacity: timers [t0] ... [t999], oldest first. *)
Definition full_map : PerformanceMap :=
  (fun i => (js "t" ++ Z_to_js (Z.of_nat i),
             {| operation := js "op"; startTime := 0; endTime := None;
                duration := None; perf_data := None |})) <$> seq 0 1000.

(** The calls that close a writer or a handle. *)
Definition is_close (e : Event) : bool :=
  match e with
  | EWriterClose _ _ | EHandleClose _ _ => true
  | _ => false
  end.

(** The descriptors held according to a trace: a successful [open] at
    position [i] of the trace yields descriptor [i], and a descriptor is
    given back when [close] is called on its handle. *)
Definition held_update (i : nat) (e : Event) (acc : list nat) : list nat :=
  match e with
  | EOpen _ true => acc ++ [i]
  | EHandleClose fd _ => filter (fun x => x ≠ fd) acc
  | _ => acc
  end.

Fixpoint held_from (i : nat) (t : list Event) (acc : list nat) : list nat :=
  match t with
  | [] => acc
  | e :: t' => held_from (S i) t' (held_update i e acc)
  end.

Definition held (t : list Event) : list nat := held_from 0 t [].

(** Events that neither yield nor give back a descriptor. *)
Definition keeps_descriptors (e : Event) : bool :=
  match e with
  | EOpen _ true | EHandleClose _ _ => false
  | _ => true
  end.

(** The Logger's writer and handle are on the same descriptor, and that
    descriptor is the only one held. *)
Definition handles_ok (s : St) : Prop :=
  fileWriter s.1 = fileHandle s.1
  ∧ held (w_trace s.2) = option_list (fileHandle s.1).

(** [{output: {console: false, file: {path: "app.log", rotate: true,
    maxSize: 100}}}] *)
Definition size_rotating_config : LoggerConfig :=
  {| opt_level := None; opt_format := None;
     opt_output :=
       Some {| out_auto := None; out_console := Some false;
               out_file :=
                 Some {| path := js "app.log"; rotate := Some true;
                         strategy := None; maxSize := Some 100%Z;
                         maxFiles := None; rotateInterval := None;
                         compress := None |};
               out_custom := None |};
     opt_color := None; opt_showTime := None; opt_showLevel := None;
     opt_tags := None; opt_context := None; opt_filter := None;
     opt_sampling := None; opt_maxMessageLength := None |}.

(** [{output: {console: false, file: {path: "logs/app.log"}}}] *)
Definition nested_path_config : LoggerConfig :=
  {| opt_level := None; opt_format := None;
     opt_output :=
       Some {| out_auto := None; out_console := Some false;
               out_file := Some (default_file (js "logs/app.log"));
               out_custom := None |};
     opt_color := None; opt_showTime := None; opt_showLevel := None;
     opt_tags := None; opt_context := None; opt_filter := None;
     opt_sampling := None; opt_maxMessageLength := None |}.

(** The error [initFileOutput] prints when [mkdir] or [open] throws. *)
Definition open_failure_report (p : jstring) (w : World) : Event :=
  EConsole (console_method (getConsoleForOutput w) c_error)
           [ArgStr (MSG_cannot_open ++ p ++ js ":"); ArgThrown].

(** What a log call leaves alone: the configuration, the timers in flight,
    the tag sets, the rotation timer and both console bindings. *)
Definition settings_kept (s s' : St) : Prop :=
  config s'.1 = config s.1
  ∧ performanceData s'.1 = performanceData s.1
  ∧ includeTagsSet s'.1 = includeTagsSet s.1
  ∧ excludeTagsSet s'.1 = excludeTagsSet s.1
  ∧ timeRotationTimerId s'.1 = timeRotationTimerId s.1
  ∧ w_console s'.2 = w_console s.2
  ∧ w_originalConsole s'.2 = w_originalConsole s.2.

(** The filter in force after [calls]: the argument of the last
    [setFilter], or [init] when there was none. *)
Definition last_filter (calls : list Call) (init : option LogFilterConfig)
  : option LogFilterConfig :=
  fold_left (fun acc c =>
               match c with CallSetFilter f => Some f | _ => acc end)
            calls init.

(** The filter and the two tag sets are those of [lg]. *)
Definition filter_kept (lg lg' : Logger) : Prop :=
  getFilter lg' = getFilter lg
  ∧ includeTagsSet lg' = includeTagsSet lg
  ∧ excludeTagsSet lg' = excludeTagsSet lg.

(** * Properties *)

(** ** The string helpers on small inputs *)

Example Z_to_js_examples :
  Z_to_js 0 = js "0" ∧ Z_to_js 1500 = js "1500" ∧ Z_to_js (-7) = js "-7".
Proof. by repeat split. Qed.

Example includes_examples :
  includes (js "logs/../etc/app.log") (js "..") = true
  ∧ includes (js "./logs/app.log") (js "..") = false
  ∧ strategy_includes_time (Some SizeTimeStrategy) = true
  ∧ strategy_includes_time (Some SizeStrategy) = false
  ∧ strategy_includes_time None = false.
Proof. by repeat split. Qed.

Example directory_examples :
  substring0 (js "./logs/app.log") (lastIndexOf (js "./logs/app.log") 47)
  = js "./logs"
  ∧ substring0 (js "app.log") (lastIndexOf (js "app.log") 47) = []
  ∧ lastIndexOf (js "app.log") 47 = (-1)%Z.
Proof. by repeat split. Qed.

Example join_example :
  join (js ", ") [js "a"; js "b"; js "c"] = js "a, b, c"
  ∧ toUpperCase (js "warn") = js "WARN".
Proof. by repeat split. Qed.

Example spread_example :
  spread [(js "a", JNum 1); (js "b", JNum 2)] [(js "b", JNum 3); (js "c", JNum 4)]
  = [(js "a", JNum 1); (js "b", JNum 3); (js "c", JNum 4)].
Proof. reflexivity. Qed.

(** ** Association lists *)

Section AssocFacts.
Context {V : Type}.
Implicit Types (m : list (jstring * V)) (k : jstring) (v : V).

Lemma assoc_get_set_eq m k v : assoc_get k (assoc_set k v m) = Some v.
Proof.
  induction m as [|[k' v'] m IH]; simpl.
  - by rewrite decide_True.
  - destruct (decide (k' = k)) as [->|Hne]; simpl.
    + by rewrite decide_True.
    + by rewrite decide_False.
Qed.

Lemma assoc_get_set_ne m k k' v :
  k ≠ k' → assoc_get k' (assoc_set k v m) = assoc_get k' m.
Proof.
  intros Hne. induction m as [|[k0 v0] m IH]; simpl.
  - by rewrite decide_False.
  - destruct (decide (k0 = k)) as [->|Hne0]; simpl.
    + by rewrite !decide_False.
    + destruct (decide (k0 = k')); done.
Qed.

Lemma assoc_get_delete_eq m k : assoc_get k (assoc_delete k m) = None.
Proof.
  induction m as [|[k' v'] m IH]; simpl; [done|].
  destruct (decide (k' = k)); simpl; [done|]. by rewrite decide_False.
Qed.

Lemma assoc_get_delete_ne m k k' :
  k ≠ k' → assoc_get k' (assoc_delete k m) = assoc_get k' m.
Proof.
  intros Hne. induction m as [|[k0 v0] m IH]; simpl; [done|].
  destruct (decide (k0 = k)) as [->|Hne0]; simpl.
  - by rewrite decide_False.
  - by rewrite IH.
Qed.

Lemma assoc_delete_length m k : length (assoc_delete k m) ≤ length m.
Proof.
  induction m as [|[k' v'] m IH]; simpl; [lia|].
  destruct (decide (k' = k)); simpl; lia.
Qed.

Lemma assoc_set_length m k v : length (assoc_set k v m) ≤ S (length m).
Proof.
  induction m as [|[k' v'] m IH]; simpl; [lia|].
  destruct (decide (k' = k)); simpl; lia.
Qed.

Lemma assoc_get_None_notin m k : assoc_get k m = None → k ∉ m.*1.
Proof.
  induction m as [|[k' v'] m IH]; simpl; [intros _; apply not_elem_of_nil|].
  destruct (decide (k' = k)); [done|]. intros Hn.
  apply not_elem_of_cons. split; [congruence | by apply IH].
Qed.

Lemma assoc_delete_notin m k : k ∉ m.*1 → assoc_delete k m = m.
Proof.
  induction m as [|[k' v'] m IH]; simpl; [done|].
  intros [Hne Hn]%not_elem_of_cons.
  rewrite decide_False by congruence. by rewrite IH.
Qed.

Lemma assoc_delete_keys m k k' : k' ∈ (assoc_delete k m).*1 → k' ∈ m.*1.
Proof.
  induction m as [|[k0 v0] m IH]; simpl; [done|].
  destruct (decide (k0 = k)); simpl.
  - intros Hin. apply elem_of_cons. right. by apply IH.
  - intros [->|Hin]%elem_of_cons; apply elem_of_cons; [by left|].
    right. by apply IH.
Qed.

Lemma assoc_delete_NoDup m k : NoDup m.*1 → NoDup (assoc_delete k m).*1.
Proof.
  induction m as [|[k0 v0] m IH]; simpl; [done|].
  intros [Hn Hnd]%NoDup_cons.
  destruct (decide (k0 = k)); simpl; [by apply IH|].
  apply NoDup_cons. split; [|by apply IH].
  intros Hin. apply Hn. by eapply assoc_delete_keys.
Qed.

Lemma assoc_set_keys m k v k' :
  k' ∈ (assoc_set k v m).*1 → k' = k ∨ k' ∈ m.*1.
Proof.
  induction m as [|[k0 v0] m IH]; simpl.
  - intros [->|Hin]%elem_of_cons; [by left | by right].
  - destruct (decide (k0 = k)) as [->|Hne]; simpl.
    + intros [->|Hin]%elem_of_cons; [by left|].
      right. apply elem_of_cons. by right.
    + intros [->|Hin]%elem_of_cons.
      * right. apply elem_of_cons. by left.
      * destruct (IH Hin) as [->|Hin']; [by left|].
        right. apply elem_of_cons. by right.
Qed.

Lemma assoc_set_NoDup m k v : NoDup m.*1 → NoDup (assoc_set k v m).*1.
Proof.
  induction m as [|[k0 v0] m IH]; simpl.
  - intros _. apply NoDup_singleton.
  - intros [Hn Hnd]%NoDup_cons.
    destruct (decide (k0 = k)) as [->|Hne]; simpl.
    + by apply NoDup_cons.
    + apply NoDup_cons. split; [|by apply IH].
      intros Hin. destruct (assoc_set_keys _ _ _ _ Hin); [congruence | done].
Qed.

(** In a map without duplicate keys, deleting the first key leaves the
    rest of the map. *)
Lemma assoc_delete_head m k v :
  NoDup ((k, v) :: m).*1 → assoc_delete k ((k, v) :: m) = m.
Proof.
  simpl. intros [Hn _]%NoDup_cons. rewrite decide_True by done.
  by apply assoc_delete_notin.
Qed.
End AssocFacts.

(** ** What the output targets leave untouched

    Writing to a target, rotating and reopening only extend the trace and
    move the file handle, writer and path of the Logger. *)

Lemma io_frame_refl s : io_frame s s.
Proof. by constructor. Qed.

Lemma io_frame_trans s1 s2 s3 :
  io_frame s1 s2 → io_frame s2 s3 → io_frame s1 s3.
Proof.
  intros [] []. constructor; try (etrans; eassumption).
Qed.

Lemma io_frame_emit lg w e : io_frame (lg, w) (lg, emit e w).
Proof. constructor; try done. simpl. by apply prefix_app_r. Qed.

Lemma io_frame_console_out lg w m args :
  io_frame (lg, w) (lg, console_out m args w).
Proof. apply io_frame_emit. Qed.

(** A step that changes file handle, writer or path only. *)
Lemma io_frame_files lg lg' w w' :
  config lg' = config lg → logCount lg' = logCount lg →
  performanceData lg' = performanceData lg →
  includeTagsSet lg' = includeTagsSet lg →
  excludeTagsSet lg' = excludeTagsSet lg →
  timeRotationTimerId lg' = timeRotationTimerId lg →
  io_frame (lg, w) (lg, w') → io_frame (lg, w) (lg', w').
Proof. intros ?????? []. by constructor. Qed.

Create HintDb frame discriminated.
#[local] Hint Resolve io_frame_refl io_frame_emit io_frame_console_out : frame.

Lemma initFileOutput_frame s : io_frame s (initFileOutput s).
Proof.
  destruct s as [lg w]. unfold initFileOutput.
  destruct (out_file _) as [f|]; [|auto with frame].
  destruct (negb (isAllowedLogPath _)); [auto with frame|].
  set (dir := substring0 _ _).
  assert (Hmk : io_frame (lg, w)
            (lg, match dir with
                 | [] => w
                 | _ :: _ => emit (EMkdir dir
                     match dir with [] => true
                               | _ :: _ => negb (next_fails w) end) w
                 end)).
  { destruct dir; auto with frame. }
  destruct (negb match dir with [] => true | _ :: _ => _ end).
  { eapply io_frame_trans; [exact Hmk|]. auto with frame. }
  match goal with
  | |- context [negb (negb (next_fails ?w1))] =>
    destruct (negb (negb (next_fails w1)))
  end.
  - eapply io_frame_trans; [exact Hmk|].
    eapply io_frame_trans; [apply io_frame_emit|]. auto with frame.
  - eapply io_frame_trans; [exact Hmk|].
    apply io_frame_files; try done. auto with frame.
Qed.

Lemma close_writer_frame s : io_frame s (close_writer s).
Proof.
  destruct s as [lg w]. unfold close_writer.
  destruct (fileWriter lg); [|auto with frame].
  apply io_frame_files; try done. auto with frame.
Qed.

Lemma close_handle_frame s : io_frame s (close_handle s).
Proof.
  destruct s as [lg w]. unfold close_handle.
  destruct (fileHandle lg); [|auto with frame].
  apply io_frame_files; try done. auto with frame.
Qed.

Lemma shift_backups_frame n p lg w :
  io_frame (lg, w) (lg, shift_backups n p w).
Proof.
  revert w. induction n as [|k IH]; intros w; [apply io_frame_refl|].
  cbn [shift_backups].
  eapply io_frame_trans; [|apply IH]. apply io_frame_emit.
Qed.

#[local] Hint Resolve initFileOutput_frame close_writer_frame
  close_handle_frame shift_backups_frame : frame.

Lemma rotateLog_frame maxFiles compress s :
  io_frame s (rotateLog maxFiles compress s).
Proof.
  unfold rotateLog. destruct (filePath s.1) as [[|c rest]|];
    [apply io_frame_refl| |apply io_frame_refl].
  pose proof (io_frame_trans _ _ _ (close_writer_frame s)
                (close_handle_frame (close_writer s))) as Hc.
  destruct (close_handle (close_writer s)) as [lg w].
  eapply io_frame_trans; [exact Hc|].
  set (w3 := shift_backups _ _ w).
  apply io_frame_trans with (lg, w3); [apply shift_backups_frame|].
  set (e := ERename _ _ _).
  apply io_frame_trans with (lg, emit e w3); [apply io_frame_emit|].
  destruct (negb (next_fails w3));
    (eapply io_frame_trans; [|apply initFileOutput_frame]).
  - destruct compress; [apply io_frame_console_out | apply io_frame_refl].
  - apply io_frame_console_out.
Qed.

Lemma checkSizeRotation_frame s : io_frame s (checkSizeRotation s).
Proof.
  destruct s as [lg w]. unfold checkSizeRotation.
  destruct (out_file _) as [f|]; [|apply io_frame_refl].
  destruct (filePath lg) as [[|c rest]|]; try apply io_frame_refl.
  eapply io_frame_trans; [apply io_frame_emit|].
  destruct (negb (negb (next_fails w))); [auto with frame|].
  destruct (_ >=? _)%Z; [apply rotateLog_frame | apply io_frame_refl].
Qed.

Lemma time_rotation_tick_frame s : io_frame s (time_rotation_tick s).
Proof.
  unfold time_rotation_tick. destruct (out_file _) as [f|];
    [|apply io_frame_refl].
  destruct (_ && _); [apply rotateLog_frame | apply io_frame_refl].
Qed.

Section PipelineFrame.
Context `{Builtins}.

Lemma write_console_frame e s : io_frame s (write_console e s).
Proof.
  destruct s as [lg w]. unfold write_console.
  destruct (truthy_bool _); auto with frame.
Qed.

Lemma write_file_frame e s : io_frame s (write_file e s).
Proof.
  destruct s as [lg w]. unfold write_file.
  destruct (out_file _) as [f|]; [|apply io_frame_refl].
  destruct (fileWriter lg) as [fd|]; [|apply io_frame_refl].
  eapply io_frame_trans; [apply io_frame_emit|].
  destruct (negb (negb (next_fails w))); [auto with frame|].
  destruct (truthy_bool _); [|apply io_frame_refl].
  destruct (default _ _); first [apply checkSizeRotation_frame
                                | apply io_frame_refl].
Qed.

Lemma write_custom_frame e s : io_frame s (write_custom e s).
Proof.
  destruct s as [lg w]. unfold write_custom.
  destruct (out_custom _) as [sink|]; [|apply io_frame_refl].
  destruct (sink _); [auto with frame|].
  eapply io_frame_trans; [apply io_frame_emit|]. auto with frame.
Qed.

Lemma dispatch_frame e s : io_frame s (dispatch e s).
Proof.
  unfold dispatch.
  eapply io_frame_trans; [apply write_console_frame|].
  eapply io_frame_trans; [apply write_file_frame|].
  apply write_custom_frame.
Qed.
End PipelineFrame.

(** ** Construction *)

Lemma startTimeRotation_config s :
  config (startTimeRotation s).1 = config s.1.
Proof. by destruct s. Qed.

Lemma constructor_config cfg w :
  config (constructor cfg w).1 = initial_config cfg w.
Proof.
  unfold constructor. cbn [config updateFilterSets set_tagSets].
  destruct (out_file _) as [f|]; [|done].
  destruct (_ && _); rewrite ?startTimeRotation_config;
    by rewrite (fr_config _ _ (initFileOutput_frame _)).
Qed.

(** ** Truncation *)

(** C9. With [maxMessageLength = M]: a message longer than [M > 0] becomes
    its first [M] code units followed by the one-unit marker U+2026; a
    message of length at most [M] is unchanged; [M = 0] never truncates; a
    Logger built without [maxMessageLength] has the limit 32768. *)
Theorem truncateMessageIfNeeded_spec (lg : Logger) (entry : LogEntry) (M : Z) :
  cfg_maxMessageLength (config lg) = Some M →
  let N := Z.of_nat (length (message entry)) in
  let out := truncateMessageIfNeeded lg entry in
  ((0 < M < N)%Z →
     message out = take (Z.to_nat M) (message entry) ++ ELLIPSIS
     ∧ Z.of_nat (length (message out)) = (M + 1)%Z
     ∧ length ELLIPSIS = 1
     ∧ set_message (message entry) out = entry)
  ∧ ((N ≤ M)%Z → out = entry)
  ∧ (M = 0%Z → out = entry)
  ∧ (∀ cfg w, opt_maxMessageLength cfg = None →
       cfg_maxMessageLength (config (constructor cfg w).1) = Some 32768%Z).
Proof.
  intros HM N out. subst N out. unfold truncateMessageIfNeeded.
  rewrite HM. cbn [from_option id]. split; [|split; [|split]].
  - intros [Hpos Hlt].
    destruct (Z.leb_spec M 0) as [|_]; [lia|].
    destruct (Z.leb_spec (Z.of_nat (length (message entry))) M) as [|_];
      [lia|].
    cbn [orb message set_message]. unfold slice0.
    destruct (Z.ltb_spec M 0) as [|_]; [lia|].
    split; [done|]. split; [|split; [done|by destruct entry]].
    rewrite length_app, length_take. cbn [length ELLIPSIS]. lia.
  - intros Hle. destruct (Z.leb_spec M 0); [done|].
    destruct (Z.leb_spec (Z.of_nat (length (message entry))) M); [done|lia].
  - intros ->. done.
  - intros cfg w Hnone. rewrite constructor_config.
    cbn [initial_config cfg_maxMessageLength]. by rewrite Hnone.
Qed.

Lemma truncateMessageIfNeeded_spec_witness :
  let lg := (constructor
               {| opt_level := None; opt_format := None; opt_output := None;
                  opt_color := None; opt_showTime := None;
                  opt_showLevel := None; opt_tags := None;
                  opt_context := None; opt_filter := None;
                  opt_sampling := None; opt_maxMessageLength := Some 3%Z |}
               sample_world).1 in
  let entry := sample_entry Info (js "hello") [] in
  cfg_maxMessageLength (config lg) = Some 3%Z
  ∧ (0 < 3 < Z.of_nat (length (message entry)))%Z
  ∧ message (truncateMessageIfNeeded lg entry) = js "hel" ++ ELLIPSIS.
Proof.
  intros lg entry.
  split; [reflexivity|]. split; [vm_compute; split; reflexivity|].
  destruct (truncateMessageIfNeeded_spec lg entry 3%Z eq_refl) as [Hcut _].
  apply Hcut. vm_compute. split; reflexivity.
Defined.

(** ** Tag filter *)

Lemma updateFilterSets_fresh lg : filter_sets_fresh (updateFilterSets lg).
Proof. by destruct lg. Qed.

Lemma setFilter_fresh f lg : filter_sets_fresh (setFilter f lg).
Proof. apply updateFilterSets_fresh. Qed.

Lemma io_frame_fresh s s' :
  io_frame s s' → filter_sets_fresh s.1 → filter_sets_fresh s'.1.
Proof.
  intros [] Hf. destruct s as [lg w], s' as [lg' w']. simpl in *.
  unfold filter_sets_fresh, updateFilterSets in *.
  destruct lg, lg'; simpl in *. subst.
  injection Hf as <- <-. done.
Qed.

Lemma constructor_fresh cfg w : filter_sets_fresh (constructor cfg w).1.
Proof.
  unfold constructor.
  set (lg := updateFilterSets _).
  assert (Hlg : filter_sets_fresh lg) by apply updateFilterSets_fresh.
  destruct (out_file _) as [f|]; [|done].
  assert (Hi : filter_sets_fresh (initFileOutput (lg, w)).1).
  { eapply io_frame_fresh; [apply initFileOutput_frame | done]. }
  destruct (_ && _); [|done].
  destruct (initFileOutput (lg, w)) as [lg' w'].
  unfold filter_sets_fresh, updateFilterSets in *.
  destruct lg'; simpl in *. injection Hi as <- <-. done.
Qed.

Lemma some_tag_in_spec (l : list jstring) (ts : option (list jstring)) :
  some_tag_in (list_to_set l) ts = true ↔
  ∃ t, t ∈ default [] ts ∧ t ∈ l.
Proof.
  destruct ts as [tl|]; simpl.
  - rewrite existsb_exists. split.
    + intros (t & Hin & Hd). exists t. split; [by apply list_elem_of_In|].
      apply bool_decide_eq_true in Hd. by apply elem_of_list_to_set in Hd.
    + intros (t & Hin & Hl). exists t. split; [by apply list_elem_of_In|].
      apply bool_decide_eq_true. by apply elem_of_list_to_set.
  - split; [done|]. intros (t & Hin & _). by apply elem_of_nil in Hin.
Qed.

Lemma tag_set_cons_size (t : jstring) (l : list jstring) :
  (0 <? size (list_to_set (C := gset jstring) (t :: l))) = true.
Proof.
  apply Nat.ltb_lt.
  enough (size (list_to_set (C := gset jstring) (t :: l)) ≠ 0) by lia.
  apply size_non_empty_iff. set_solver.
Qed.

(** The verdict of the two tag checks, from the filter lists. *)
Lemma tag_checks_spec (l : option (list jstring)) (ts : option (list jstring)) :
  match tag_set l with
  | Some set => (0 <? size set) && some_tag_in set ts
  | None => false
  end = true ↔ ∃ t, t ∈ default [] ts ∧ t ∈ default [] l.
Proof.
  destruct l as [[|t l]|]; cbn [tag_set from_option id].
  - split; [done|]. intros (t & _ & Hin). by apply elem_of_nil in Hin.
  - rewrite tag_set_cons_size. cbn [andb].
    apply (some_tag_in_spec (t :: l)).
  - split; [done|]. intros (t & _ & Hin). by apply elem_of_nil in Hin.
Qed.

(** C8. With a filter set and the tag sets derived from it: an entry
    carrying an excluded tag is rejected whatever [includeTags] and the
    custom predicate say; an entry without excluded tag is rejected when
    [includeTags] is non-empty and none of its tags is included; otherwise
    the verdict is the custom predicate's when there is one, and acceptance
    when there is none. Without custom predicate the verdict depends on the
    tag list of the entry only. *)
Theorem shouldFilterByTags_precedence
  (lg : Logger) (f : LogFilterConfig) (entry : LogEntry) :
  cfg_filter (config lg) = Some f →
  filter_sets_fresh lg →
  let ts := default [] (tags entry) in
  let excluded := ∃ t, t ∈ ts ∧ t ∈ default [] (excludeTags f) in
  let included := ∃ t, t ∈ ts ∧ t ∈ default [] (includeTags f) in
  (excluded → shouldFilterByTags lg entry = false)
  ∧ (¬ excluded → default [] (includeTags f) ≠ [] → ¬ included →
       shouldFilterByTags lg entry = false)
  ∧ (¬ excluded → default [] (includeTags f) = [] ∨ included →
       shouldFilterByTags lg entry =
       match filter_custom f with Some p => p entry | None => true end)
  ∧ (∀ entry', tags entry' = tags entry → filter_custom f = None →
       shouldFilterByTags lg entry' = shouldFilterByTags lg entry).
Proof.
  intros Hf Hfresh ts excluded included.
  assert (Hex : ∀ e, match excludeTagsSet lg with
                | Some ex => (0 <? size ex) && some_tag_in ex (tags e)
                | None => false
                end = true ↔
                ∃ t, t ∈ default [] (tags e) ∧ t ∈ default [] (excludeTags f)).
  { intros e. rewrite <- Hfresh. unfold updateFilterSets. rewrite Hf.
    apply tag_checks_spec. }
  assert (Hin : ∀ e, match includeTagsSet lg with
                | Some inc => (0 <? size inc) && negb (some_tag_in inc (tags e))
                | None => false
                end = true ↔
                default [] (includeTags f) ≠ [] ∧
                ¬ ∃ t, t ∈ default [] (tags e) ∧ t ∈ default [] (includeTags f)).
  { intros e. rewrite <- Hfresh. unfold updateFilterSets. rewrite Hf.
    cbn [mbind option_bind includeTagsSet set_tagSets].
    destruct (includeTags f) as [[|t l]|]; cbn [tag_set from_option id].
    - split; [done|]. by intros [? _].
    - rewrite tag_set_cons_size. cbn [andb]. rewrite negb_true_iff.
      rewrite <- not_true_iff_false.
      rewrite (some_tag_in_spec (t :: l)). split; [|by intros [_ ?]].
      intros Hn. split; [done|exact Hn].
    - split; [done|]. by intros [? _]. }
  unfold shouldFilterByTags. rewrite Hf.
  split; [|split; [|split]].
  - intros Hx. apply (Hex entry) in Hx. by rewrite Hx.
  - intros Hnx Hne Hni.
    destruct (match excludeTagsSet lg with Some _ => _ | None => _ end) eqn:E;
      [done|].
    assert (Hi := proj2 (Hin entry) (conj Hne Hni)). by rewrite Hi.
  - intros Hnx Hi.
    destruct (match excludeTagsSet lg with Some _ => _ | None => _ end) eqn:E.
    { by apply (Hex entry) in E. }
    destruct (match includeTagsSet lg with Some _ => _ | None => _ end) eqn:E';
      [|done].
    apply (Hin entry) in E' as [Hne Hni]. destruct Hi; done.
  - intros entry' Htags Hnone. rewrite Hnone.
    assert (E1 : match excludeTagsSet lg with
                 | Some ex => (0 <? size ex) && some_tag_in ex (tags entry')
                 | None => false end =
                 match excludeTagsSet lg with
                 | Some ex => (0 <? size ex) && some_tag_in ex (tags entry)
                 | None => false end) by (by rewrite Htags).
    assert (E2 : match includeTagsSet lg with
                 | Some inc =>
                   (0 <? size inc) && negb (some_tag_in inc (tags entry'))
                 | None => false end =
                 match includeTagsSet lg with
                 | Some inc =>
                   (0 <? size inc) && negb (some_tag_in inc (tags entry))
                 | None => false end) by (by rewrite Htags).
    by rewrite E1, E2.
Qed.

Lemma shouldFilterByTags_precedence_witness :
  let lg := setFilter sample_filter (constructor empty_config sample_world).1 in
  let entry := sample_entry Info (js "m") [js "api"; js "noisy"] in
  cfg_filter (config lg) = Some sample_filter
  ∧ filter_sets_fresh lg
  ∧ shouldFilterByTags lg entry = false.
Proof.
  intros lg entry.
  assert (Hf : cfg_filter (config lg) = Some sample_filter) by reflexivity.
  assert (Hs : filter_sets_fresh lg) by (vm_compute; reflexivity).
  split; [exact Hf|]. split; [exact Hs|].
  destruct (shouldFilterByTags_precedence lg sample_filter entry Hf Hs)
    as [Hexcl _].
  apply Hexcl. exists (js "noisy"). vm_compute.
  split; repeat constructor.
Defined.

(** ** The pipeline, stage by stage *)

Section PipelineFacts.
Context `{Builtins}.

Lemma write_console_logger fe s : (write_console fe s).1 = s.1.
Proof.
  destruct s as [lg w]. unfold write_console. by destruct (truthy_bool _).
Qed.

Lemma write_console_trace fe s :
  w_trace (write_console fe s).2 =
  w_trace s.2 ++
  if truthy_bool (out_console (cfg_output (config s.1)))
  then [EConsole (console_method (getConsoleForOutput s.2) c_log)
                 [ArgStr (console_line fe s)]]
  else [].
Proof.
  destruct s as [lg w]. unfold write_console. simpl.
  destruct (truthy_bool _); simpl; [done|]. by rewrite app_nil_r.
Qed.

Lemma write_file_trace fe s f fd :
  out_file (cfg_output (config s.1)) = Some f →
  fileWriter s.1 = Some fd →
  ∃ ok rest,
    w_trace (write_file fe s).2 =
    w_trace s.2 ++ EWrite fd (file_line fe s) ok :: rest.
Proof.
  destruct s as [lg w]. cbn [fst snd]. intros Hf Hw.
  unfold write_file. rewrite Hf, Hw.
  set (e := EWrite _ _ _).
  match goal with
  | |- ∃ ok rest, w_trace (?X).2 = _ =>
    assert (Hrest : io_frame (lg, emit e w) X)
  end.
  { destruct (negb (negb _)); [apply io_frame_console_out|].
    destruct (truthy_bool _); [|apply io_frame_refl].
    destruct (default _ _); first [apply checkSizeRotation_frame
                                  | apply io_frame_refl]. }
  destruct (fr_trace _ _ Hrest) as [rest Hrest'].
  exists (negb (next_fails w)), rest.
  rewrite Hrest'. cbn [snd emit w_trace]. by rewrite <- app_assoc.
Qed.

Lemma write_custom_trace fe s sink :
  out_custom (cfg_output (config s.1)) = Some sink →
  ∃ rest,
    w_trace (write_custom fe s).2 =
    w_trace s.2
    ++ ESink (console_line fe s) (sink (console_line fe s)) :: rest.
Proof.
  destruct s as [lg w]. cbn [fst snd]. intros Hc.
  unfold write_custom. rewrite Hc. fold (console_line fe (lg, w)).
  destruct (sink _); cbn [snd console_out emit w_trace].
  - by exists [].
  - eexists. by rewrite <- app_assoc.
Qed.

Lemma dispatch_delivered fe s : delivered fe s (dispatch fe s).
Proof.
  unfold dispatch.
  pose proof (write_console_frame fe s) as F1.
  pose proof (write_file_frame fe (write_console fe s)) as F2.
  pose proof (write_custom_frame fe (write_file fe (write_console fe s)))
    as F3.
  pose proof (write_console_logger fe s) as L1.
  pose proof (write_console_trace fe s) as T1.
  set (s1 := write_console fe s) in *.
  set (s2 := write_file fe s1) in *.
  set (s3 := write_custom fe s2) in *.
  destruct (fr_trace _ _ F2) as [evs2 T2].
  destruct (fr_trace _ _ F3) as [evs3 T3].
  set (evs1 := if truthy_bool _ then _ else _) in T1.
  exists (evs1 ++ evs2 ++ evs3). split; [|split; [|split]].
  - rewrite T3, T2, T1. by rewrite <- !app_assoc.
  - intros Hc. subst evs1. rewrite Hc. apply elem_of_app. left.
    apply elem_of_cons. by left.
  - intros f fd Hf Hw.
    assert (Hf1 : out_file (cfg_output (config s1.1)) = Some f)
      by (by rewrite L1).
    assert (Hw1 : fileWriter s1.1 = Some fd) by (by rewrite L1).
    destruct (write_file_trace fe s1 f fd Hf1 Hw1) as (ok & rest & T2').
    fold s2 in T2'. rewrite T2 in T2'. apply app_inv_head in T2'.
    exists ok. apply elem_of_app. right. apply elem_of_app. left.
    rewrite T2'. unfold file_line. rewrite L1. apply elem_of_cons. by left.
  - intros sink Hs.
    assert (Hs2 : out_custom (cfg_output (config s2.1)) = Some sink).
    { rewrite (fr_config _ _ F2), (fr_config _ _ F1). done. }
    destruct (write_custom_trace fe s2 sink Hs2) as (rest & T3').
    fold s3 in T3'. rewrite T3 in T3'. apply app_inv_head in T3'.
    assert (Hline : console_line fe s2 = console_line fe s).
    { unfold console_line, shouldUseColor, isTTY.
      rewrite (fr_config _ _ F2), (fr_config _ _ F1).
      rewrite (fr_NO_COLOR _ _ F2), (fr_NO_COLOR _ _ F1).
      rewrite (fr_isTerminal _ _ F2), (fr_isTerminal _ _ F1). done. }
    rewrite Hline in T3'.
    apply elem_of_app. right. apply elem_of_app. right.
    rewrite T3'. apply elem_of_cons. by left.
Qed.

Lemma writeLog_gate_closed entry s :
  shouldLog s.1 (level entry) = false → writeLog entry s = s.
Proof. intros Hg. unfold writeLog. by rewrite Hg. Qed.

Lemma writeLog_filtered entry s :
  shouldFilterByTags s.1 (merge_entry s.1 entry) = false →
  writeLog entry s = s.
Proof.
  intros Hf. unfold writeLog. destruct (negb (shouldLog _ _)); [done|].
  by rewrite Hf.
Qed.

Lemma writeLog_unsampled entry s :
  shouldLog s.1 (level entry) = true →
  shouldFilterByTags s.1 (merge_entry s.1 entry) = true →
  cfg_sampling (config s.1) = None →
  writeLog entry s =
  dispatch (truncateMessageIfNeeded s.1 (merge_entry s.1 entry)) s.
Proof.
  intros Hg Hf Hs. unfold writeLog. rewrite Hg, Hf. cbn [negb].
  unfold shouldSample. destruct s as [lg w]. simpl in Hs. by rewrite Hs.
Qed.

Lemma log_unfold l msg d e lg w :
  log l msg d e (lg, w) =
  writeLog {| timestamp := toISOString (Date_now w).1; level := l;
              message := msg; data := d; error := e;
              tags := None; context := None |}
           (lg, (Date_now w).2).
Proof. done. Qed.
End PipelineFacts.

(** ** Level gate *)

(** C4, at the explicit input [L1 = L2 = info]: the claim taken for
    [L1 <= L2] asks a Logger at minimum level [info] to suppress a call at
    [info]; the call is printed. *)
Lemma level_gate_equal_levels_counterexample :
  let s := constructor empty_config sample_world in
  let s' := log (H := sample_builtins) Info (js "x") None None s in
  (LOG_LEVELS Info <= LOG_LEVELS (cfg_level (config s.1)))%Z
  ∧ cfg_filter (config s.1) = None
  ∧ cfg_sampling (config s.1) = None
  ∧ w_trace s'.2 = [EConsole (Native c_log) [ArgStr (js "T0 [INFO] x")]]
  ∧ ¬ suppressed s s'.
Proof.
  intros s s'. split; [by vm_compute|]. split; [done|]. split; [done|].
  assert (Ht : w_trace s'.2 =
               [EConsole (Native c_log) [ArgStr (js "T0 [INFO] x")]])
    by (vm_compute; reflexivity).
  split; [exact Ht|]. intros [_ Hsame]. rewrite Ht in Hsame. discriminate.
Qed.

(** C4 (amended to [L1 < L2]). Priorities are debug=0, info=1, warn=2,
    error=3, fatal=4 and the gate is [>=]. For [L1] strictly below the
    configured minimum [L2], and no filter or sampling configured, a call
    at [L1] leaves the Logger unchanged and reaches no target, and a call
    at any level [L >= L2] reaches every active target. *)
Theorem level_gate `{Builtins} (L1 L2 : LogLevel) (lg : Logger) (w : World)
  (msg : jstring) (d : option json) (e : option JsError) :
  (LOG_LEVELS L1 < LOG_LEVELS L2)%Z →
  cfg_level (config lg) = L2 →
  cfg_filter (config lg) = None →
  cfg_sampling (config lg) = None →
  LOG_LEVELS <$> [Debug; Info; Warn; Error; Fatal] = [0; 1; 2; 3; 4]%Z
  ∧ (∀ L, shouldLog lg L = true ↔ (LOG_LEVELS L >= LOG_LEVELS L2)%Z)
  ∧ suppressed (lg, w) (log L1 msg d e (lg, w))
  ∧ (∀ L, (LOG_LEVELS L2 <= LOG_LEVELS L)%Z →
       delivered (final_entry lg (entry_of_call L msg d e w))
                 (lg, (Date_now w).2) (log L msg d e (lg, w))).
Proof.
  intros Hlt Hlevel Hfilter Hsampling.
  assert (Hgate : ∀ L, shouldLog lg L = true ↔
                       (LOG_LEVELS L >= LOG_LEVELS L2)%Z).
  { intros L. unfold shouldLog. rewrite Hlevel.
    rewrite Z.geb_leb, Z.leb_le. lia. }
  split; [done|]. split; [exact Hgate|]. split.
  - rewrite log_unfold, writeLog_gate_closed; [done|].
    cbn [fst level]. apply not_true_is_false. rewrite Hgate. lia.
  - intros L HL. rewrite log_unfold, writeLog_unsampled.
    + apply dispatch_delivered.
    + cbn [fst level]. apply Hgate. lia.
    + unfold shouldFilterByTags. cbn [fst]. by rewrite Hfilter.
    + done.
Qed.

Lemma level_gate_witness :
  let lg := (constructor empty_config sample_world).1 in
  (LOG_LEVELS Debug < LOG_LEVELS Info)%Z
  ∧ cfg_level (config lg) = Info
  ∧ cfg_filter (config lg) = None
  ∧ cfg_sampling (config lg) = None
  ∧ suppressed (lg, sample_world)
      (log (H := sample_builtins) Debug (js "x") None None (lg, sample_world)).
Proof.
  intros lg.
  assert (H1 : (LOG_LEVELS Debug < LOG_LEVELS Info)%Z) by (simpl; lia).
  split; [exact H1|]. split; [reflexivity|].
  split; [reflexivity|]. split; [reflexivity|].
  exact (proj1 (proj2 (proj2
    (level_gate (H := sample_builtins) Debug Info lg sample_world (js "x")
       None None H1 eq_refl eq_refl eq_refl)))).
Defined.

(** ** Sampling counter *)

(** C3, at an explicit input: a Logger without sampling configuration
    passes a call at [info] through the level gate and the tag filter, the
    call is printed, and [logCount] is still 0. *)
Lemma logCount_without_sampling_counterexample :
  let s := constructor empty_config sample_world in
  let entry := sample_entry Info (js "x") [] in
  let s' := writeLog (H := sample_builtins) entry s in
  shouldLog s.1 (level entry) = true
  ∧ shouldFilterByTags s.1 (merge_entry s.1 entry) = true
  ∧ w_trace s'.2 = [EConsole (Native c_log) [ArgStr (js "T0 [INFO] x")]]
  ∧ logCount s.1 = 0%Z
  ∧ logCount s'.1 = 0%Z
  ∧ logCount s'.1 ≠ (logCount s.1 + 1)%Z.
Proof.
  intros s entry s'.
  assert (Hc : logCount s'.1 = 0%Z) by (vm_compute; reflexivity).
  split; [by vm_compute|]. split; [by vm_compute|].
  split; [by vm_compute|]. split; [done|]. split; [exact Hc|].
  rewrite Hc. by vm_compute.
Qed.

(** C3 (amended). A call that passes the level gate and the tag filter
    increments [logCount] exactly once when the sampler treats its level (a
    sampling configuration is set and its level list is absent, empty or
    contains the level), whether the draw then lets the entry through or
    not; with no sampling configuration, or a level outside the list, the
    counter is unchanged. *)
Theorem logCount_bookkeeping `{Builtins} (entry : LogEntry) (s : St) :
  shouldLog s.1 (level entry) = true →
  shouldFilterByTags s.1 (merge_entry s.1 entry) = true →
  logCount (writeLog entry s).1 =
  (logCount s.1 + if sampling_applies s.1 (level entry) then 1 else 0)%Z.
Proof.
  intros Hg Hf. unfold writeLog. rewrite Hg, Hf. cbn [negb].
  unfold shouldSample, sampling_applies. destruct s as [lg w].
  cbn [fst level merge_entry].
  destruct (cfg_sampling (config lg)) as [sampling|].
  - destruct (levels sampling) as [[|x xs]|].
    + cbn [Math_random negb]. destruct (Qlt_bool _ _); cbn [negb].
      * by rewrite (fr_logCount _ _ (dispatch_frame _ _)).
      * done.
    + destruct (bool_decide (level entry ∈ x :: xs)); cbn [negb].
      * cbn [Math_random]. destruct (Qlt_bool _ _); cbn [negb].
        -- by rewrite (fr_logCount _ _ (dispatch_frame _ _)).
        -- done.
      * rewrite (fr_logCount _ _ (dispatch_frame _ _)). cbn [fst]. lia.
    + cbn [Math_random negb]. destruct (Qlt_bool _ _); cbn [negb].
      * by rewrite (fr_logCount _ _ (dispatch_frame _ _)).
      * done.
  - cbn [negb]. rewrite (fr_logCount _ _ (dispatch_frame _ _)). cbn [fst]. lia.
Qed.

Lemma logCount_bookkeeping_witness :
  let s := (setSampling sample_sampling
              (constructor empty_config sample_world).1, sample_world) in
  let entry := sample_entry Info (js "x") [] in
  shouldLog s.1 (level entry) = true
  ∧ shouldFilterByTags s.1 (merge_entry s.1 entry) = true
  ∧ w_trace (writeLog (H := sample_builtins) entry s).2 = []
  ∧ logCount (writeLog (H := sample_builtins) entry s).1 = 1%Z.
Proof.
  intros s entry.
  split; [reflexivity|]. split; [reflexivity|]. split; [reflexivity|].
  exact (logCount_bookkeeping (H := sample_builtins) entry s eq_refl eq_refl).
Defined.

(** ** Performance tracker *)

Section PerformanceFacts.
Context `{Builtins}.

Lemma shouldSample_performanceData l s :
  performanceData (shouldSample l s).2.1 = performanceData s.1.
Proof.
  destruct s as [lg w]. unfold shouldSample.
  destruct (cfg_sampling _) as [sa|]; [|done].
  by destruct (match levels sa with Some (_ :: _) => _ | _ => _ end).
Qed.

Lemma writeLog_performanceData entry s :
  performanceData (writeLog entry s).1 = performanceData s.1.
Proof.
  unfold writeLog. destruct (negb (shouldLog _ _)); [done|].
  destruct (negb (shouldFilterByTags _ _)); [done|].
  pose proof (shouldSample_performanceData (level (merge_entry s.1 entry)) s)
    as Hs.
  destruct (shouldSample _ s) as [sampled s1]. cbn [fst snd] in Hs.
  destruct (negb sampled); [done|].
  by rewrite (fr_performanceData _ _ (dispatch_frame _ _)).
Qed.

Lemma log_performanceData l msg d e s :
  performanceData (log l msg d e s).1 = performanceData s.1.
Proof.
  destruct s as [lg w]. rewrite log_unfold.
  by rewrite writeLog_performanceData.
Qed.

Lemma assoc_delete_set {V} (m : list (jstring * V)) k v :
  assoc_delete k (assoc_set k v m) = assoc_delete k m.
Proof.
  induction m as [|[k' v'] m IH]; simpl.
  - by rewrite decide_True.
  - destruct (decide (k' = k)) as [->|Hne]; simpl.
    + by rewrite decide_True.
    + rewrite decide_False by done. by rewrite IH.
Qed.

Lemma endPerformance_found id l lg w p :
  assoc_get id (performanceData lg) = Some p →
  let endT := (Date_now w).1 in
  let dur := (endT - startTime p)%Z in
  let s1 := log l (perf_message (operation p) dur)
              (Some (JObj (perf_payload p dur endT))) None
              (set_performanceData
                 (assoc_set id (finished p endT) (performanceData lg)) lg,
               (Date_now w).2) in
  endPerformance id l (lg, w) =
  (set_performanceData (assoc_delete id (performanceData s1.1)) s1.1, s1.2).
Proof.
  intros Hp endT dur s1. unfold endPerformance. rewrite Hp.
  cbn [Date_now]. fold endT. fold dur.
  unfold Logger_debug, Logger_info, Logger_warn, Logger_error, Logger_fatal.
  assert (Hs1 : ∀ X : St, X = s1 →
     (let '(lg0, w0) := X in
      (set_performanceData (assoc_delete id (performanceData lg0)) lg0, w0))
     = (set_performanceData (assoc_delete id (performanceData s1.1)) s1.1,
        s1.2)).
  { intros X ->. by destruct s1. }
  destruct l; apply Hs1; reflexivity.
Qed.

Lemma endPerformance_performanceData id l lg w :
  performanceData (endPerformance id l (lg, w)).1 =
  match assoc_get id (performanceData lg) with
  | Some _ => assoc_delete id (performanceData lg)
  | None => performanceData lg
  end.
Proof.
  destruct (assoc_get id (performanceData lg)) as [p|] eqn:E.
  - rewrite (endPerformance_found id l lg w p E).
    cbn [fst performanceData set_performanceData].
    rewrite log_performanceData.
    cbn [fst performanceData set_performanceData].
    apply assoc_delete_set.
  - unfold endPerformance. rewrite E. unfold Logger_warn.
    by rewrite log_performanceData.
Qed.
End PerformanceFacts.

(** C7. With [id] absent from the performance map, [endPerformance] is the
    call [warn("性能监控 ID 不存在: " + id)] and the map is unchanged. With
    [id] mapped to a record [p], it is one [log] call at the given level
    whose message names the operation and the duration [now - startTime],
    whose data is the original data with [duration], [startTime] and
    [endTime] set over it, followed by the deletion of [id]: that record is
    gone and every other record is as before. *)
Theorem endPerformance_spec `{Builtins} (id : jstring) (l : LogLevel)
  (lg : Logger) (w : World) :
  (assoc_get id (performanceData lg) = None →
     endPerformance id l (lg, w) =
       Logger_warn (MSG_perf_id_missing ++ id) None None (lg, w)
     ∧ performanceData (endPerformance id l (lg, w)).1 = performanceData lg)
  ∧ (∀ p, assoc_get id (performanceData lg) = Some p →
       let endT := (Date_now w).1 in
       let dur := (endT - startTime p)%Z in
       let payload := perf_payload p dur endT in
       let s1 := log l (perf_message (operation p) dur)
                   (Some (JObj payload)) None
                   (set_performanceData
                      (assoc_set id (finished p endT) (performanceData lg)) lg,
                    (Date_now w).2) in
       let s' := endPerformance id l (lg, w) in
       s'.2 = s1.2
       ∧ s'.1 = set_performanceData (assoc_delete id (performanceData lg)) s1.1
       ∧ perf_message (operation p) dur =
           MSG_perf_prefix ++ operation p ++ MSG_perf_took
           ++ Z_to_js (endT - startTime p) ++ js "ms"
       ∧ assoc_get (js "duration") payload = Some (JNum dur)
       ∧ assoc_get (js "startTime") payload = Some (JNum (startTime p))
       ∧ assoc_get (js "endTime") payload = Some (JNum endT)
       ∧ (∀ k, k ≠ js "duration" → k ≠ js "startTime" → k ≠ js "endTime" →
            assoc_get k payload = assoc_get k (default [] (perf_data p)))
       ∧ assoc_get id (performanceData s'.1) = None
       ∧ (∀ k, k ≠ id →
            assoc_get k (performanceData s'.1) =
            assoc_get k (performanceData lg))).
Proof.
  split.
  - intros Hnone. unfold endPerformance. rewrite Hnone. split; [done|].
    unfold Logger_warn. by rewrite log_performanceData.
  - intros p Hp endT dur payload s1 s'.
    assert (Hs' : s' = (set_performanceData
                          (assoc_delete id (performanceData s1.1)) s1.1, s1.2))
      by (apply endPerformance_found; exact Hp).
    assert (Hpd : performanceData s1.1 =
                  assoc_set id (finished p endT) (performanceData lg)).
    { subst s1. by rewrite log_performanceData. }
    assert (Hdel : assoc_delete id (performanceData s1.1) =
                   assoc_delete id (performanceData lg)).
    { rewrite Hpd. apply assoc_delete_set. }
    rewrite Hdel in Hs'.
    split; [by rewrite Hs'|]. split; [by rewrite Hs'|]. split; [done|].
    subst payload. unfold perf_payload.
    split; [|split; [|split; [|split; [|split]]]].
    + rewrite !assoc_get_set_ne by (by vm_compute).
      apply assoc_get_set_eq.
    + rewrite assoc_get_set_ne by (by vm_compute). apply assoc_get_set_eq.
    + apply assoc_get_set_eq.
    + intros k H1 H2 H3. by rewrite !assoc_get_set_ne.
    + rewrite Hs'. cbn [fst performanceData set_performanceData].
      apply assoc_get_delete_eq.
    + intros k Hk. rewrite Hs'. cbn [fst performanceData set_performanceData].
      by apply assoc_get_delete_ne.
Qed.

Lemma endPerformance_spec_witness :
  let r := startPerformance (H := sample_builtins) (js "op") None
             (constructor empty_config sample_world) in
  let s' := endPerformance (H := sample_builtins) r.1 Info r.2 in
  r.1 = js "op-0-0.5"
  ∧ assoc_get r.1 (performanceData r.2.1) =
      Some {| operation := js "op"; startTime := 100; endTime := None;
              duration := None; perf_data := None |}
  ∧ w_trace s'.2 =
      [EConsole (Native c_log)
         [ArgStr (js "T300 [INFO] " ++ MSG_perf_prefix ++ js "op"
                  ++ MSG_perf_took ++ js "100ms {}")]]
  ∧ assoc_get r.1 (performanceData s'.1) = None.
Proof.
  intros r s'.
  assert (Hp : assoc_get r.1 (performanceData r.2.1) =
      Some {| operation := js "op"; startTime := 100; endTime := None;
              duration := None; perf_data := None |}) by reflexivity.
  split; [reflexivity|]. split; [exact Hp|]. split; [reflexivity|].
  destruct (endPerformance_spec (H := sample_builtins) r.1 Info r.2.1 r.2.2)
    as [_ Hfound].
  exact (proj1 (proj2 (proj2 (proj2 (proj2 (proj2 (proj2 (proj2
           (Hfound _ Hp))))))))).
Defined.

(** C10. The warning for an unknown [id] goes through the Logger's own
    pipeline: with the minimum level at [error] or [fatal] the call leaves
    the Logger unchanged and reaches no target; the same holds when the tag
    filter rejects the warning, and no target is reached either when the
    sampler drops it. *)
Theorem endPerformance_unknown_id_gated `{Builtins} (id : jstring)
  (l : LogLevel) (lg : Logger) (w : World) :
  assoc_get id (performanceData lg) = None →
  let entry := entry_of_call Warn (MSG_perf_id_missing ++ id) None None w in
  let s' := endPerformance id l (lg, w) in
  (cfg_level (config lg) = Error ∨ cfg_level (config lg) = Fatal →
     suppressed (lg, w) s')
  ∧ (shouldFilterByTags lg (merge_entry lg entry) = false →
       suppressed (lg, w) s')
  ∧ (shouldLog lg Warn = true →
     shouldFilterByTags lg (merge_entry lg entry) = true →
     (shouldSample Warn (lg, (Date_now w).2)).1 = false →
     w_trace s'.2 = w_trace w).
Proof.
  intros Hnone entry s'.
  assert (Hs' : s' = writeLog entry (lg, (Date_now w).2)).
  { subst s'. unfold endPerformance. by rewrite Hnone. }
  split; [|split].
  - intros Hlevel. rewrite Hs', writeLog_gate_closed; [done|].
    unfold shouldLog. cbn [fst level entry entry_of_call].
    by destruct Hlevel as [-> | ->].
  - intros Hf. by rewrite Hs', writeLog_filtered.
  - intros Hg Hf Hsam. rewrite Hs'. unfold writeLog.
    cbn [fst level entry entry_of_call merge_entry].
    rewrite Hg. fold entry. cbn [negb].
    fold (merge_entry lg entry). rewrite Hf. cbn [negb].
    assert (Ht : w_trace (shouldSample Warn (lg, (Date_now w).2)).2.2
                 = w_trace w).
    { unfold shouldSample. destruct (cfg_sampling _) as [sa|]; [|done].
      by destruct (match levels sa with Some (_ :: _) => _ | _ => _ end). }
    destruct (shouldSample Warn _) as [sampled s1].
    cbn [fst snd] in *. by rewrite Hsam.
Qed.

Lemma endPerformance_unknown_id_gated_witness :
  let lg := setLevel Error (constructor empty_config sample_world).1 in
  assoc_get (js "nope") (performanceData lg) = None
  ∧ cfg_level (config lg) = Error
  ∧ suppressed (lg, sample_world)
      (endPerformance (H := sample_builtins) (js "nope") Info
         (lg, sample_world)).
Proof.
  intros lg. split; [reflexivity|]. split; [reflexivity|].
  exact (proj1 (endPerformance_unknown_id_gated (H := sample_builtins)
                  (js "nope") Info lg sample_world eq_refl)
               (or_introl eq_refl)).
Defined.

(** ** The bound on the performance map *)

Section BoundFacts.
Context `{Builtins}.

Lemma evict_oldest_ok m :
  perf_map_ok m →
  NoDup (evict_oldest m).*1
  ∧ (Z.of_nat (length (evict_oldest m)) < MAX_PERFORMANCE_ENTRIES)%Z.
Proof.
  intros [Hnd Hlen]. unfold evict_oldest.
  destruct (Z.geb_spec (Z.of_nat (length m)) MAX_PERFORMANCE_ENTRIES)
    as [Hge|Hlt]; [|by split; [|lia]].
  destruct m as [|[k v] rest].
  - split; [done|]. by vm_compute.
  - rewrite (assoc_delete_head rest k v Hnd).
    apply NoDup_cons in Hnd as [_ Hnd]. split; [done|].
    cbn [length] in Hlen. lia.
Qed.

Lemma startPerformance_ok op d s :
  perf_map_ok (performanceData s.1) →
  perf_map_ok (performanceData (startPerformance op d s).2.1).
Proof.
  intros Hok. destruct s as [lg w]. cbn [fst] in Hok.
  unfold startPerformance.
  cbn [Date_now Math_random fst snd performanceData set_performanceData].
  destruct (evict_oldest_ok _ Hok) as [Hnd Hlen]. split.
  - by apply assoc_set_NoDup.
  - pose proof (assoc_set_length (evict_oldest (performanceData lg))) as Hl.
    match goal with
    | |- (Z.of_nat (length (assoc_set ?k ?v _)) <= _)%Z =>
      specialize (Hl k v)
    end.
    lia.
Qed.

Lemma endPerformance_ok id l s :
  perf_map_ok (performanceData s.1) →
  perf_map_ok (performanceData (endPerformance id l s).1).
Proof.
  destruct s as [lg w]. cbn [fst]. intros [Hnd Hlen].
  rewrite endPerformance_performanceData.
  destruct (assoc_get id (performanceData lg)) as [p|]; [|by split].
  split.
  - by apply assoc_delete_NoDup.
  - pose proof (assoc_delete_length (performanceData lg) id). lia.
Qed.

Lemma close_performanceData s :
  performanceData (close s).1 = performanceData s.1.
Proof.
  destruct s as [lg w]. unfold close.
  set (s0 := match timeRotationTimerId lg with Some _ => _ | None => _ end).
  assert (Hs0 : performanceData s0.1 = performanceData lg)
    by (subst s0; by destruct (timeRotationTimerId lg)).
  rewrite (fr_performanceData _ _ (close_handle_frame _)).
  by rewrite (fr_performanceData _ _ (close_writer_frame _)).
Qed.

Lemma step_ok c s :
  perf_map_ok (performanceData s.1) →
  perf_map_ok (performanceData (step c s).1).
Proof.
  intros Hok. destruct c; cbn [step fst snd].
  - by rewrite log_performanceData.
  - done.
  - done.
  - unfold addTag. by destruct (bool_decide _).
  - done.
  - done.
  - done.
  - by apply startPerformance_ok.
  - by apply endPerformance_ok.
  - by rewrite (fr_performanceData _ _ (time_rotation_tick_frame _)).
  - by rewrite close_performanceData.
Qed.

Lemma run_ok calls s :
  perf_map_ok (performanceData s.1) →
  perf_map_ok (performanceData (run calls s).1).
Proof.
  revert s. induction calls as [|c calls IH]; intros s Hok; [done|].
  cbn [run fold_left]. apply IH. by apply step_ok.
Qed.

Lemma constructor_performanceData cfg w :
  performanceData (constructor cfg w).1 = [].
Proof.
  unfold constructor.
  cbn [config updateFilterSets set_tagSets].
  destruct (out_file _) as [f|]; [|done].
  assert (Hi : ∀ lg0, performanceData lg0 = [] →
               performanceData (initFileOutput (lg0, w)).1 = []).
  { intros lg0 <-.
    apply (fr_performanceData _ _ (initFileOutput_frame (lg0, w))). }
  destruct (_ && _).
  - unfold startTimeRotation.
    match goal with
    | |- context [initFileOutput (?l, w)] =>
      specialize (Hi l eq_refl); destruct (initFileOutput (l, w))
    end.
    exact Hi.
  - by apply Hi.
Qed.
End BoundFacts.

(** C6. After any sequence of calls on a freshly constructed Logger the
    performance map holds at most 1000 records. From such a state
    [startPerformance] returns the identifier it generated
    ([operation-now-random]) and leaves it mapped to the new record; below
    capacity the record is added to the map as it was, at capacity the
    first (oldest inserted) record is removed before the insertion; the
    bound holds again afterwards. *)
Theorem performance_map_bounded `{Builtins} (cfg : LoggerConfig) (w : World)
  (calls : list Call) :
  let s := run calls (constructor cfg w) in
  let m := performanceData s.1 in
  MAX_PERFORMANCE_ENTRIES = 1000%Z
  ∧ (Z.of_nat (length m) <= MAX_PERFORMANCE_ENTRIES)%Z
  ∧ ∀ op d,
      let r := startPerformance op d s in
      let m' := performanceData r.2.1 in
      let record :=
        {| operation := op; startTime := w_clock s.2 (S (w_ticks s.2));
           endTime := None; duration := None; perf_data := d |} in
      r.1 = op ++ js "-" ++ Z_to_js (w_clock s.2 (w_ticks s.2)) ++ js "-"
            ++ Number_toString (w_random s.2 (w_draws s.2))
      ∧ assoc_get r.1 m' = Some record
      ∧ ((Z.of_nat (length m) < MAX_PERFORMANCE_ENTRIES)%Z →
           m' = assoc_set r.1 record m)
      ∧ (Z.of_nat (length m) = MAX_PERFORMANCE_ENTRIES →
           ∃ k v rest, m = (k, v) :: rest ∧ m' = assoc_set r.1 record rest)
      ∧ (Z.of_nat (length m') <= MAX_PERFORMANCE_ENTRIES)%Z.
Proof.
  intros s m.
  assert (Hok : perf_map_ok m).
  { apply run_ok. rewrite constructor_performanceData. split.
    - apply NoDup_nil_2.
    - by vm_compute. }
  split; [done|]. split; [apply Hok|].
  intros op d r m' record.
  assert (Hok' : perf_map_ok m') by (by apply startPerformance_ok).
  subst r m' record m. destruct s as [lg w0].
  unfold startPerformance in *.
  cbn [Date_now Math_random fst snd performanceData set_performanceData
       w_clock w_ticks w_random w_draws] in *.
  split; [done|]. split; [apply assoc_get_set_eq|].
  split; [|split; [|apply Hok']].
  - intros Hlt. unfold evict_oldest.
    destruct (Z.geb_spec (Z.of_nat (length (performanceData lg)))
                MAX_PERFORMANCE_ENTRIES); [lia|done].
  - intros Heq. unfold evict_oldest.
    destruct (Z.geb_spec (Z.of_nat (length (performanceData lg)))
                MAX_PERFORMANCE_ENTRIES) as [_|]; [|lia].
    destruct Hok as [Hnd _].
    destruct (performanceData lg) as [|[k v] rest]; [by vm_compute in Heq|].
    exists k, v, rest. split; [done|].
    by rewrite (assoc_delete_head rest k v Hnd).
Qed.

Lemma performance_map_bounded_witness :
  let s := run (H := sample_builtins) [CallStartPerformance (js "a") None]
             (constructor empty_config sample_world) in
  let r := startPerformance (H := sample_builtins) (js "b") None s in
  (Z.of_nat (length (performanceData s.1)) < MAX_PERFORMANCE_ENTRIES)%Z
  ∧ r.1 = js "b-200-0.5"
  ∧ (performanceData r.2.1).*1 = [js "a-0-0.5"; js "b-200-0.5"].
Proof.
  intros s r.
  assert (Hlt : (Z.of_nat (length (performanceData s.1))
                 < MAX_PERFORMANCE_ENTRIES)%Z) by (by vm_compute).
  split; [exact Hlt|]. split; [reflexivity|].
  destruct (performance_map_bounded (H := sample_builtins) empty_config
              sample_world [CallStartPerformance (js "a") None])
    as (_ & _ & Hstart).
  destruct (Hstart (js "b") None) as (_ & _ & Hbelow & _).
  fold s in Hbelow. fold r in Hbelow. rewrite (Hbelow Hlt). reflexivity.
Defined.

(** ** Rotation *)

Lemma shift_backups_trace n p w :
  ∃ evs, w_trace (shift_backups n p w) = w_trace w ++ evs
  ∧ erase_outcome <$> evs =
    (fun i => ERename (backup_path p i) (backup_path p (S i)) true)
      <$> rev (seq 1 n).
Proof.
  revert w. induction n as [|k IH]; intros w.
  - exists []. by rewrite app_nil_r.
  - cbn [shift_backups]. unfold rename_ignoring.
    set (e := ERename _ _ _).
    destruct (IH (emit e w)) as (evs & Ht & He).
    exists (e :: evs). split.
    + rewrite Ht. cbn [emit w_trace]. by rewrite <- app_assoc.
    + rewrite seq_S, rev_app_distr. cbn [rev app].
      rewrite !fmap_cons. f_equal; [|exact He].
      subst e. cbn [erase_outcome]. unfold backup_path.
      replace (Z.of_nat (S k) + 1)%Z with (Z.of_nat (S (1 + k))) by lia.
      done.
Qed.

Lemma close_writer_trace s :
  ∃ evs, w_trace (close_writer s).2 = w_trace s.2 ++ evs
  ∧ erase_outcome <$> evs =
    match fileWriter s.1 with Some fd => [EWriterClose fd true] | None => [] end
  ∧ fileWriter (close_writer s).1 = None
  ∧ fileHandle (close_writer s).1 = fileHandle s.1
  ∧ filePath (close_writer s).1 = filePath s.1.
Proof.
  destruct s as [lg w]. unfold close_writer. cbn [fst snd].
  destruct (fileWriter lg) as [fd|] eqn:E.
  - eexists [_]. by repeat split.
  - exists []. rewrite app_nil_r. by repeat split.
Qed.

Lemma close_handle_trace s :
  ∃ evs, w_trace (close_handle s).2 = w_trace s.2 ++ evs
  ∧ erase_outcome <$> evs =
    match fileHandle s.1 with Some fd => [EHandleClose fd true] | None => [] end
  ∧ fileHandle (close_handle s).1 = None
  ∧ fileWriter (close_handle s).1 = fileWriter s.1
  ∧ filePath (close_handle s).1 = filePath s.1.
Proof.
  destruct s as [lg w]. unfold close_handle. cbn [fst snd].
  destruct (fileHandle lg) as [fd|] eqn:E.
  - eexists [_]. by repeat split.
  - exists []. rewrite app_nil_r. by repeat split.
Qed.

(** When no runtime call fails from [s] on, [initFileOutput] ends with the
    file open for append. *)
Lemma initFileOutput_succeeds s f :
  out_file (cfg_output (config s.1)) = Some f →
  isAllowedLogPath (path f) = true →
  (∀ n, length (w_trace s.2) ≤ n → w_fail s.2 n = false) →
  ∃ fd pre,
    fileWriter (initFileOutput s).1 = Some fd
    ∧ fileHandle (initFileOutput s).1 = Some fd
    ∧ filePath (initFileOutput s).1 = Some (path f)
    ∧ w_trace (initFileOutput s).2 = w_trace s.2 ++ pre ++ [EOpen (path f) true].
Proof.
  destruct s as [lg w]. cbn [fst snd]. intros Hf Hallowed Hok.
  assert (H0 : w_fail w (length (w_trace w)) = false) by (by apply Hok).
  assert (H1 : ∀ e, w_fail w (length (w_trace w ++ [e])) = false).
  { intros e. apply Hok. rewrite length_app. lia. }
  unfold initFileOutput. rewrite Hf, Hallowed. cbn [negb].
  destruct (substring0 (path f) (lastIndexOf (path f) 47)) as [|c dir];
    unfold next_fails; cbn [emit w_fail w_trace]; rewrite ?H0, ?H1;
    cbn [negb].
  - exists (length (w_trace w)), []. by repeat split.
  - eexists _, [_]. repeat split. cbn [snd w_trace emit].
    by rewrite <- app_assoc.
Qed.

(** C5, at an explicit input: the constructor's [open] failed, so no path
    is recorded; a rotation (here the timer's, [rotateLog(3, false)]) then
    returns at its guard: nothing is closed or renamed and the file is not
    reopened, the Logger stays without writer. *)
Lemma rotateLog_without_path_counterexample :
  let s := constructor rotating_config first_call_fails in
  w_trace s.2 =
    [EOpen (js "app.log") false;
     EConsole (Native c_error)
       [ArgStr (MSG_cannot_open ++ js "app.log:"); ArgThrown];
     ESetInterval 86400000]
  ∧ filePath s.1 = None
  ∧ fileWriter s.1 = None
  ∧ time_rotation_tick s = rotateLog 3 false s
  ∧ rotateLog 3 false s = s
  ∧ ¬ (∃ ok, EOpen (js "app.log") ok ∈
              drop (length (w_trace s.2)) (w_trace (rotateLog 3 false s).2)).
Proof.
  intros s.
  assert (Hsame : rotateLog 3 false s = s) by reflexivity.
  split; [reflexivity|]. split; [reflexivity|]. split; [reflexivity|].
  split; [reflexivity|]. split; [exact Hsame|].
  rewrite Hsame, drop_all. intros [ok Hin]. by apply elem_of_nil in Hin.
Qed.

Lemma getConsoleForOutput_frame s s' :
  io_frame s s' → getConsoleForOutput s'.2 = getConsoleForOutput s.2.
Proof.
  intros F. unfold getConsoleForOutput.
  by rewrite (fr_console _ _ F), (fr_originalConsole _ _ F).
Qed.

(** C5 (amended). Without a recorded path [rotateLog] returns at once and
    changes nothing. With one, it first closes the writer and the handle
    it has, whatever the closes answer; then renames [path.i] to [path.(i+1)] for [i] from
    [maxFiles - 1] down to 1, whatever the renames answer; then renames the
    active file to [path.1]; it reports a failure of that rename (or warns
    that compression is not available) on the console; and it always ends
    with [initFileOutput], entered with no writer and no handle, which
    leaves the file open for append when its runtime calls succeed. *)
Theorem rotateLog_order (maxFiles : Z) (compress : bool) (lg : Logger)
  (w : World) :
  (filePath lg = None → rotateLog maxFiles compress (lg, w) = (lg, w))
  ∧
  ∀ p, filePath lg = Some p → p ≠ [] →
  ∃ closes shifts renamed s_mid,
    erase_outcome <$> closes =
      match fileWriter lg with Some fd => [EWriterClose fd true] | None => [] end
      ++ match fileHandle lg with
         | Some fd => [EHandleClose fd true]
         | None => []
         end
    ∧ erase_outcome <$> shifts =
        (fun i => ERename (backup_path p i) (backup_path p (S i)) true)
          <$> rev (seq 1 (Z.to_nat (maxFiles - 1)))
    ∧ w_trace s_mid.2 =
        w_trace w ++ closes ++ shifts
        ++ [ERename p (backup_path p 1) renamed]
        ++ (if renamed
            then if compress
                 then [EConsole (console_method (getConsoleForOutput w) c_warn)
                         [ArgStr MSG_compress_unsupported]]
                 else []
            else [EConsole (console_method (getConsoleForOutput w) c_error)
                    [ArgStr MSG_rotation_failed; ArgThrown]])
    ∧ fileWriter s_mid.1 = None
    ∧ fileHandle s_mid.1 = None
    ∧ config s_mid.1 = config lg
    ∧ rotateLog maxFiles compress (lg, w) = initFileOutput s_mid
    ∧ (∀ f, out_file (cfg_output (config lg)) = Some f →
         isAllowedLogPath (path f) = true →
         (∀ n, length (w_trace s_mid.2) ≤ n → w_fail w n = false) →
         ∃ fd pre,
           fileWriter (rotateLog maxFiles compress (lg, w)).1 = Some fd
           ∧ w_trace (rotateLog maxFiles compress (lg, w)).2 =
               w_trace s_mid.2 ++ pre ++ [EOpen (path f) true]).
Proof.
  split; [intros Hnone; unfold rotateLog; cbn [fst]; by rewrite Hnone|].
  intros p Hp Hne. destruct p as [|c rest]; [done|].
  unfold rotateLog. cbn [fst]. rewrite Hp.
  destruct (close_writer_trace (lg, w)) as (evs1 & T1 & E1 & W1 & Hh1 & _).
  destruct (close_handle_trace (close_writer (lg, w)))
    as (evs2 & T2 & E2 & Hh2 & W2 & _).
  pose proof (io_frame_trans _ _ _ (close_writer_frame (lg, w))
                (close_handle_frame (close_writer (lg, w)))) as F12.
  rewrite Hh1 in E2. rewrite W1 in W2. cbn [fst snd] in E1, E2, T1.
  rewrite T1 in T2. clear T1 W1 Hh1.
  destruct (close_handle (close_writer (lg, w))) as [lg2 w2].
  cbn [fst snd] in *.
  destruct (shift_backups_trace (Z.to_nat (maxFiles - 1)) (c :: rest) w2)
    as (evs3 & T3 & E3).
  pose proof (shift_backups_frame (Z.to_nat (maxFiles - 1)) (c :: rest) lg2 w2)
    as F3.
  set (w3 := shift_backups _ _ w2) in *.
  pose proof (io_frame_trans _ _ _ F12 F3) as F.
  set (renamed := negb (next_fails w3)).
  set (w4 := emit (ERename (c :: rest) ((c :: rest) ++ js ".1") renamed) w3).
  pose proof (io_frame_trans _ _ _ F (io_frame_emit lg2 w3
                (ERename (c :: rest) ((c :: rest) ++ js ".1") renamed))) as F4.
  fold w4 in F4.
  pose proof (getConsoleForOutput_frame _ _ F4) as Hcons. cbn [snd] in Hcons.
  assert (T4 : w_trace w4 = w_trace w ++ (evs1 ++ evs2) ++ evs3
                 ++ [ERename (c :: rest) (backup_path (c :: rest) 1) renamed]).
  { subst w4. cbn [emit w_trace]. rewrite T3, T2.
    by rewrite <- !app_assoc. }
  set (report := if renamed
                 then if compress
                      then [EConsole (console_method (getConsoleForOutput w)
                                        c_warn)
                              [ArgStr MSG_compress_unsupported]]
                      else []
                 else [EConsole (console_method (getConsoleForOutput w) c_error)
                         [ArgStr MSG_rotation_failed; ArgThrown]]).
  set (w5 := if renamed
             then if compress
                  then console_out c_warn [ArgStr MSG_compress_unsupported] w4
                  else w4
             else console_out c_error [ArgStr MSG_rotation_failed; ArgThrown]
                    w4).
  assert (T5 : w_trace w5 = w_trace w4 ++ report).
  { subst w5 report. destruct renamed; [destruct compress|];
      unfold console_out; cbn [emit w_trace]; rewrite ?Hcons, ?app_nil_r;
      done. }
  assert (F5 : io_frame (lg, w) (lg2, w5)).
  { eapply io_frame_trans; [exact F4|]. subst w5.
    destruct renamed; [destruct compress|];
      first [apply io_frame_console_out | apply io_frame_refl]. }
  assert (Hrot : (if renamed
                  then initFileOutput
                         (lg2, if compress
                               then console_out c_warn
                                      [ArgStr MSG_compress_unsupported] w4
                               else w4)
                  else initFileOutput
                         (lg2, console_out c_error
                                 [ArgStr MSG_rotation_failed; ArgThrown] w4))
                 = initFileOutput (lg2, w5)).
  { subst w5. by destruct renamed. }
  exists (evs1 ++ evs2), evs3, renamed, (lg2, w5).
  split; [by rewrite fmap_app, E1, E2|]. split; [exact E3|].
  split; [cbn [snd]; rewrite T5, T4; by rewrite <- !app_assoc|].
  split; [exact W2|]. split; [exact Hh2|].
  split; [exact (fr_config _ _ F5)|]. split; [exact Hrot|].
  intros f Hf Hallowed Hok.
  change (let renamed := negb (next_fails w3) in
          if renamed
          then initFileOutput
                 (lg2, if compress
                       then console_out c_warn
                              [ArgStr MSG_compress_unsupported] w4
                       else w4)
          else initFileOutput
                 (lg2, console_out c_error
                         [ArgStr MSG_rotation_failed; ArgThrown] w4))
    with (if renamed
          then initFileOutput
                 (lg2, if compress
                       then console_out c_warn
                              [ArgStr MSG_compress_unsupported] w4
                       else w4)
          else initFileOutput
                 (lg2, console_out c_error
                         [ArgStr MSG_rotation_failed; ArgThrown] w4)).
  rewrite Hrot.
  destruct (initFileOutput_succeeds (lg2, w5) f) as (fd & pre & Hw & _ & _ & Ht).
  - pose proof (fr_config _ _ F5) as Hc. cbn [fst] in *. by rewrite Hc.
  - exact Hallowed.
  - pose proof (fr_fail _ _ F5) as Hfl. cbn [snd] in *. rewrite Hfl. exact Hok.
  - exists fd, pre. by split.
Qed.

Lemma rotateLog_order_witness :
  let s := constructor rotating_config sample_world in
  filePath s.1 = Some (js "app.log")
  ∧ js "app.log" ≠ []
  ∧ w_trace (rotateLog 3 false s).2 =
      w_trace s.2
      ++ [EWriterClose 0 true; EHandleClose 0 true;
          ERename (js "app.log.2") (js "app.log.3") true;
          ERename (js "app.log.1") (js "app.log.2") true;
          ERename (js "app.log") (js "app.log.1") true;
          EOpen (js "app.log") true]
  ∧ ∃ closes shifts s_mid,
      erase_outcome <$> shifts =
        [ERename (js "app.log.2") (js "app.log.3") true;
         ERename (js "app.log.1") (js "app.log.2") true]
      ∧ erase_outcome <$> closes = [EWriterClose 0 true; EHandleClose 0 true]
      ∧ fileWriter s_mid.1 = None
      ∧ rotateLog 3 false s = initFileOutput s_mid.
Proof.
  intros s.
  assert (Hp : filePath s.1 = Some (js "app.log")) by reflexivity.
  assert (Hne : js "app.log" ≠ []) by discriminate.
  split; [exact Hp|]. split; [exact Hne|]. split; [reflexivity|].
  destruct (proj2 (rotateLog_order 3 false s.1 s.2) (js "app.log") Hp Hne)
    as (closes & shifts & renamed & s_mid & Hclose & Hshift & _ & Hw & _ & _
        & Hend & _).
  exists closes, shifts, s_mid.
  split; [exact Hshift|]. split; [exact Hclose|]. split; [exact Hw|exact Hend].
Defined.

(** ** Console redirection *)

Lemma redirect_forwards target w m :
  behaviour (console_method (w_console (redirectConsoleToLogger target w)) m)
  = CallsLogger (default default_logger target) (forwarded_level m).
Proof. by destruct m. Qed.

(** What the two functions do in general. [redirect] captures the console
    methods in place at the time of the call, every time: they are kept
    (bound) in the holder, the Logger's own output goes to them, and the
    global methods become forwarders to the target (log and info to
    [info], warn to [warn], error to [error], debug to [debug]). [restore]
    puts back what the latest [redirect] captured and empties the holder;
    with nothing captured it does nothing. So one [redirect] followed by
    [restore] gives back the console as it was, and after two [redirect]s
    in a row [restore] puts back the forwarders of the first one. *)
Lemma restore_reinstates_latest_capture (t1 t2 : option LoggerRef)
  (w : World) (m : ConsoleMethod) :
  let w1 := redirectConsoleToLogger t1 w in
  let w2 := redirectConsoleToLogger t2 w1 in
  behaviour (console_method (w_console w1) m)
    = CallsLogger (default default_logger t1) (forwarded_level m)
  ∧ behaviour (console_method (getConsoleForOutput w1) m)
    = behaviour (console_method (w_console w) m)
  ∧ behaviour (console_method (w_console (restoreConsole w1)) m)
    = behaviour (console_method (w_console w) m)
  ∧ w_originalConsole (restoreConsole w1) = None
  ∧ restoreConsole (restoreConsole w1) = restoreConsole w1
  ∧ behaviour (console_method (getConsoleForOutput w2) m)
    = CallsLogger (default default_logger t1) (forwarded_level m)
  ∧ behaviour (console_method (w_console (restoreConsole w2)) m)
    = CallsLogger (default default_logger t1) (forwarded_level m).
Proof.
  intros w1 w2. split; [by destruct m|]. split; [by destruct m|].
  split; [by destruct m|]. split; [done|]. split; [done|].
  split; by destruct m.
Qed.

(** C1, the code at the failing input: from the runtime's own console,
    [redirect] twice (to Loggers 1 and 2) without a restore in between,
    then [restore]. The holder is overwritten by the second call, which
    captures the forwarders of the first: while redirected the console a
    Logger writes to is a forwarder, and after [restore] [console.log]
    still forwards to Logger 1 although nothing is captured any more, so a
    further [restore] changes nothing and the true original is lost. *)
Theorem redirect_twice_loses_original :
  let w2 := redirectConsoleToLogger (Some 2)
              (redirectConsoleToLogger (Some 1) sample_world) in
  behaviour (console_log (w_console sample_world)) = WritesNative c_log
  ∧ w_originalConsole sample_world = None
  ∧ behaviour (console_log (getConsoleForOutput w2)) = CallsLogger 1 Info
  ∧ behaviour (console_log (w_console (restoreConsole w2)))
    = CallsLogger 1 Info
  ∧ behaviour (console_log (w_console (restoreConsole w2)))
    ≠ behaviour (console_log (w_console sample_world))
  ∧ w_originalConsole (restoreConsole w2) = None
  ∧ restoreConsole (restoreConsole w2) = restoreConsole w2.
Proof. by repeat split. Qed.

(** ** Color and the NO_COLOR variable *)

(** [shouldUseColor] on a configuration without [color] does honour
    NO_COLOR. *)
Lemma shouldUseColor_NO_COLOR cfg w :
  opt_color cfg = None → truthy_env (w_NO_COLOR w) = true →
  shouldUseColor cfg false w = false.
Proof. intros Hc Hn. unfold shouldUseColor. by rewrite Hc, Hn. Qed.

(** The constructor always stores a boolean in [config.color], so the
    Logger's calls of [shouldUseColor] return it and never read NO_COLOR. *)
Lemma constructed_color_is_explicit cfg w w' :
  shouldUseColor (as_LoggerConfig (config (constructor cfg w).1)) false w'
  = match opt_color cfg with
    | Some b => b
    | None => is_color_format (opt_format cfg) && isTTY w
    end.
Proof. by rewrite constructor_config. Qed.

(** C2, the code at the failing input: [new Logger({format: "color"})] on
    an interactive terminal with [NO_COLOR=1]. No [color] was given and
    NO_COLOR is set, yet the line printed for [info("x")] carries the ANSI
    colour codes. *)
Theorem constructed_logger_ignores_NO_COLOR :
  let w := with_NO_COLOR (Some (js "1")) sample_world in
  let s := constructor color_config w in
  opt_color color_config = None
  ∧ truthy_env (w_NO_COLOR w) = true
  ∧ shouldUseColor color_config false w = false
  ∧ shouldUseColor (as_LoggerConfig (config s.1)) false s.2 = true
  ∧ w_trace (Logger_info (H := sample_builtins) (js "x") None None s).2 =
      [EConsole (Native c_log)
         [ArgStr (js "T0 [" ++ ANSI_blue ++ js "INFO" ++ ANSI_reset
                  ++ js "] x")]].
Proof. by repeat split. Qed.

(** * Further properties of the module *)

(** ** Tags and context of a Logger (lines 939-967) *)

Lemma set_config_same lg : set_config (config lg) lg = lg.
Proof. by destruct lg. Qed.

Lemma with_tags_same c : with_tags (cfg_tags c) c = c.
Proof. by destruct c. Qed.

Lemma occurrences_notin (t : jstring) (l : list jstring) :
  t ∉ l → occurrences t l = 0.
Proof.
  unfold occurrences. induction l as [|x l IH]; [done|].
  intros [Hne Hn]%not_elem_of_cons.
  rewrite filter_cons_False by congruence. by apply IH.
Qed.

Lemma occurrences_in (t : jstring) (l : list jstring) :
  t ∈ l → 1 ≤ occurrences t l.
Proof.
  unfold occurrences. induction l as [|x l IH]; [by intros ?%elem_of_nil|].
  destruct (decide (x = t)) as [->|Hne].
  - intros _. rewrite filter_cons_True by done. simpl. lia.
  - intros [?|Hin]%elem_of_cons; [congruence|].
    rewrite filter_cons_False by done. by apply IH.
Qed.

Lemma occurrences_app t l1 l2 :
  occurrences t (l1 ++ l2) = occurrences t l1 + occurrences t l2.
Proof. unfold occurrences. by rewrite filter_app, length_app. Qed.

(** X1. [addTag] appends the tag when it is absent and does nothing when
    it is present: afterwards the tag occurs as often as before, and at
    least once; the other tags keep their number and the old list is a
    prefix of the new one; adding the same tag again changes nothing. *)
Theorem addTag_idempotent (t : jstring) (lg : Logger) :
  let old := cfg_tags (config lg) in
  let new := cfg_tags (config (addTag t lg)) in
  occurrences t new = max 1 (occurrences t old)
  ∧ (∀ t', t' ≠ t → occurrences t' new = occurrences t' old)
  ∧ old `prefix_of` new
  ∧ addTag t (addTag t lg) = addTag t lg.
Proof.
  intros old new. subst old new. unfold addTag.
  destruct (bool_decide (t ∈ cfg_tags (config lg))) eqn:E.
  - pose proof (occurrences_in _ _ (proj1 (bool_decide_eq_true _) E)).
    rewrite E. split; [lia|]. by repeat split.
  - apply bool_decide_eq_false in E.
    cbn [config set_config cfg_tags with_tags].
    rewrite occurrences_app, (occurrences_notin _ _ E).
    assert (Hin : bool_decide (t ∈ cfg_tags (config lg) ++ [t]) = true).
    { apply bool_decide_eq_true, elem_of_app. right. apply elem_of_cons.
      by left. }
    rewrite Hin. split; [|split; [|split; [|done]]].
    + unfold occurrences. by rewrite filter_cons_True by done.
    + intros t' Hne. rewrite occurrences_app.
      unfold occurrences at 2. rewrite filter_cons_False by congruence.
      simpl. lia.
    + by apply prefix_app_r.
Qed.

Lemma remove_first_notin (t : jstring) (l : list jstring) :
  t ∉ l → remove_first t l = l.
Proof.
  induction l as [|x l IH]; [done|]. intros [Hne Hn]%not_elem_of_cons.
  cbn [remove_first]. rewrite decide_False by congruence. by rewrite IH.
Qed.

Lemma remove_first_occurrences (t : jstring) (l : list jstring) :
  occurrences t (remove_first t l) = pred (occurrences t l).
Proof.
  unfold occurrences. induction l as [|x l IH]; [done|].
  cbn [remove_first]. destruct (decide (x = t)) as [->|Hne].
  - by rewrite filter_cons_True by done.
  - by rewrite !filter_cons_False by done.
Qed.

Lemma remove_first_others (t t' : jstring) (l : list jstring) :
  t' ≠ t → occurrences t' (remove_first t l) = occurrences t' l.
Proof.
  intros Hne. unfold occurrences. induction l as [|x l IH]; [done|].
  cbn [remove_first]. destruct (decide (x = t)) as [->|Hx].
  - by rewrite filter_cons_False by congruence.
  - destruct (decide (x = t')) as [->|Hx'].
    + rewrite !filter_cons_True by done. simpl. by rewrite IH.
    + by rewrite !filter_cons_False by done.
Qed.

Lemma remove_first_snoc (t : jstring) (l : list jstring) :
  t ∉ l → remove_first t (l ++ [t]) = l.
Proof.
  induction l as [|x l IH]; simpl.
  - intros _. by rewrite decide_True.
  - intros [Hne Hn]%not_elem_of_cons.
    rewrite decide_False by congruence. by rewrite IH.
Qed.



(** ** Shallow merge of objects (lines 690, 940, 977) *)

Lemma assoc_get_snoc {V} (m : list (jstring * V)) k k' v :
  assoc_get k (m ++ [(k', v)]) =
  match assoc_get k m with
  | Some x => Some x
  | None => if decide (k' = k) then Some v else None
  end.
Proof.
  induction m as [|[k0 v0] m IH]; simpl; [done|].
  by destruct (decide (k0 = k)).
Qed.

Lemma assoc_get_set {V} (m : list (jstring * V)) k k' v :
  assoc_get k (assoc_set k' v m) =
  if decide (k' = k) then Some v else assoc_get k m.
Proof.
  destruct (decide (k' = k)) as [->|Hne].
  - apply assoc_get_set_eq.
  - by apply assoc_get_set_ne.
Qed.

Lemma assoc_set_keys_prefix {V} (m : list (jstring * V)) k v :
  m.*1 `prefix_of` (assoc_set k v m).*1.
Proof.
  induction m as [|[k0 v0] m IH]; simpl; [apply prefix_nil|].
  destruct (decide (k0 = k)) as [->|Hne]; simpl; [done|].
  by apply prefix_cons.
Qed.

Lemma spread_lookup {V} (a b : list (jstring * V)) k :
  assoc_get k (spread a b) =
  match assoc_get k (rev b) with
  | Some v => Some v
  | None => assoc_get k a
  end.
Proof.
  unfold spread. revert a. induction b as [|[k' v] b IH]; intros a; [done|].
  cbn [fold_left rev fst snd]. rewrite IH, assoc_get_snoc, assoc_get_set.
  by destruct (assoc_get k (rev b)), (decide (k' = k)).
Qed.

Lemma spread_keys_prefix {V} (a b : list (jstring * V)) :
  a.*1 `prefix_of` (spread a b).*1.
Proof.
  unfold spread. revert a. induction b as [|[k' v] b IH]; intros a; [done|].
  cbn [fold_left fst snd]. etrans; [apply assoc_set_keys_prefix|apply IH].
Qed.


(** ** Tags of the Logger and the tag filter (lines 612-643, 687-695) *)

(** With the tag sets derived from the filter, the two rejections of
    [shouldFilterByTags] in terms of the filter lists. *)
Lemma shouldFilterByTags_rejects lg f entry :
  cfg_filter (config lg) = Some f →
  filter_sets_fresh lg →
  (∃ t, t ∈ default [] (tags entry) ∧ t ∈ default [] (excludeTags f))
  ∨ (default [] (includeTags f) ≠ []
     ∧ ¬ ∃ t, t ∈ default [] (tags entry) ∧ t ∈ default [] (includeTags f)) →
  shouldFilterByTags lg entry = false.
Proof.
  intros Hf Hfresh Hrej. unfold shouldFilterByTags. rewrite Hf.
  rewrite <- Hfresh. unfold updateFilterSets. rewrite Hf.
  cbn [mbind option_bind includeTagsSet excludeTagsSet set_tagSets].
  destruct Hrej as [Hex | [Hne Hni]].
  - apply (tag_checks_spec (excludeTags f)) in Hex. by rewrite Hex.
  - destruct (match tag_set (excludeTags f) with Some _ => _ | None => _ end);
      [done|].
    destruct (includeTags f) as [[|t l]|]; [done| |done].
    cbn [tag_set]. rewrite tag_set_cons_size. cbn [andb].
    assert (Hs : some_tag_in (list_to_set (t :: l)) (tags entry) = false).
    { apply not_true_is_false. by rewrite (some_tag_in_spec (t :: l)). }
    by rewrite Hs.
Qed.

(** X4. A call made through [debug]/[info]/[warn]/[error]/[fatal] carries
    no tags of its own, so the tag filter sees the Logger's tags only:
    when one of them is excluded, or when [includeTags] is non-empty and
    names none of them, every such call is dropped, whatever its level,
    message and data. *)
Theorem logger_tags_decide_filter `{Builtins} (lg : Logger)
  (f : LogFilterConfig) (l : LogLevel) (msg : jstring) (d : option json)
  (e : option JsError) (w : World) :
  cfg_filter (config lg) = Some f →
  filter_sets_fresh lg →
  tags (merge_entry lg (entry_of_call l msg d e w)) = Some (cfg_tags (config lg))
  ∧ ((∃ t, t ∈ cfg_tags (config lg) ∧ t ∈ default [] (excludeTags f)) →
       suppressed (lg, w) (log l msg d e (lg, w)))
  ∧ (default [] (includeTags f) ≠ [] →
     (∀ t, t ∈ cfg_tags (config lg) → t ∉ default [] (includeTags f)) →
       suppressed (lg, w) (log l msg d e (lg, w))).
Proof.
  intros Hf Hfresh.
  assert (Ht : tags (merge_entry lg (entry_of_call l msg d e w))
               = Some (cfg_tags (config lg))).
  { cbn [tags merge_entry entry_of_call from_option id]. by rewrite app_nil_r. }
  split; [exact Ht|].
  assert (Hsup : shouldFilterByTags lg
                   (merge_entry lg (entry_of_call l msg d e w)) = false →
                 suppressed (lg, w) (log l msg d e (lg, w))).
  { intros Hrej. rewrite log_unfold.
    rewrite writeLog_filtered; [done|]. exact Hrej. }
  split.
  - intros Hex. apply Hsup.
    apply (shouldFilterByTags_rejects lg f _ Hf Hfresh). left.
    by rewrite Ht.
  - intros Hne Hni. apply Hsup.
    apply (shouldFilterByTags_rejects lg f _ Hf Hfresh). right.
    split; [done|]. rewrite Ht. intros (t & Hin & Hinc). by apply (Hni t).
Qed.

Lemma logger_tags_decide_filter_witness :
  let lg := setFilter sample_filter
              (addTag (js "noisy") (constructor empty_config sample_world).1) in
  cfg_filter (config lg) = Some sample_filter
  ∧ filter_sets_fresh lg
  ∧ suppressed (lg, sample_world)
      (log (H := sample_builtins) Fatal (js "x") None None (lg, sample_world)).
Proof.
  intros lg.
  assert (Hf : cfg_filter (config lg) = Some sample_filter) by reflexivity.
  assert (Hs : filter_sets_fresh lg) by (vm_compute; reflexivity).
  split; [exact Hf|]. split; [exact Hs|].
  apply (proj1 (proj2 (logger_tags_decide_filter (H := sample_builtins) lg
           sample_filter Fatal (js "x") None None sample_world Hf Hs))).
  exists (js "noisy"). vm_compute. split; repeat constructor.
Defined.

(** ** The sampler at its extremes (lines 648-665) *)

Lemma Qlt_bool_iff (x y : Q) : Qlt_bool x y = true ↔ (x < y)%Q.
Proof.
  unfold Qlt_bool. rewrite negb_true_iff, <- not_true_iff_false, Qle_bool_iff.
  split; [apply Qnot_le_lt | apply Qlt_not_le].
Qed.

Lemma delivered_after_draw `{Builtins} fe lg w n :
  delivered fe (set_logCount n lg, (Math_random w).2)
    (dispatch fe (set_logCount n lg, (Math_random w).2)) →
  delivered fe (lg, w) (dispatch fe (set_logCount n lg, (Math_random w).2)).
Proof. done. Qed.

(** X5. For a call that passes the level gate and the tag filter: a level
    outside a non-empty sampling level list is not sampled at all (the
    entry is dispatched whatever the rate); for a sampled level and a draw
    in [0, 1), a rate of 0 or less drops every entry without touching any
    target, and a rate of 1 or more lets every entry reach the targets. *)
Theorem sampler_extremes `{Builtins} (entry : LogEntry) (s : St) :
  shouldLog s.1 (level entry) = true →
  shouldFilterByTags s.1 (merge_entry s.1 entry) = true →
  (sampling_applies s.1 (level entry) = false →
     writeLog entry s = dispatch (final_entry s.1 entry) s)
  ∧ (∀ sa, cfg_sampling (config s.1) = Some sa →
       sampling_applies s.1 (level entry) = true →
       (0 <= w_random s.2 (w_draws s.2))%Q →
       (w_random s.2 (w_draws s.2) < 1)%Q →
       ((rate sa <= 0)%Q → w_trace (writeLog entry s).2 = w_trace s.2)
       ∧ ((1 <= rate sa)%Q →
            delivered (final_entry s.1 entry) s (writeLog entry s))).
Proof.
  intros Hg Hf. destruct s as [lg w]. cbn [fst snd] in *.
  unfold writeLog. cbn [fst]. rewrite Hg, Hf. cbn [negb].
  unfold shouldSample, sampling_applies. cbn [level merge_entry].
  split.
  - destruct (cfg_sampling (config lg)) as [sa|]; [|done].
    destruct (levels sa) as [[|x xs]|]; [done| |done].
    intros ->. done.
  - intros sa Hsa Happ H0 H1. rewrite Hsa in *.
    assert (Hby : match levels sa with
                  | Some (x :: xs) => negb (bool_decide (level entry ∈ x :: xs))
                  | _ => false
                  end = false).
    { destruct (levels sa) as [[|x xs]|]; [done| |done]. by rewrite Happ. }
    rewrite Hby. cbn [Math_random fst snd]. split.
    + intros Hr.
      assert (Hd : Qlt_bool (w_random w (w_draws w)) (rate sa) = false).
      { apply not_true_is_false. rewrite Qlt_bool_iff. intros Hlt.
        apply (Qlt_irrefl 0). eapply Qle_lt_trans; [exact H0|].
        eapply Qlt_le_trans; [exact Hlt|exact Hr]. }
      by rewrite Hd.
    + intros Hr.
      assert (Hd : Qlt_bool (w_random w (w_draws w)) (rate sa) = true).
      { apply Qlt_bool_iff. eapply Qlt_le_trans; [exact H1|exact Hr]. }
      rewrite Hd. cbn [negb].
      apply (delivered_after_draw _ lg w (logCount lg + 1)%Z).
      apply dispatch_delivered.
Qed.

Lemma sampler_extremes_witness :
  let s := (setSampling {| rate := 0%Q; levels := None |}
              (constructor empty_config sample_world).1, sample_world) in
  let entry := sample_entry Error (js "x") [] in
  shouldLog s.1 (level entry) = true
  ∧ shouldFilterByTags s.1 (merge_entry s.1 entry) = true
  ∧ sampling_applies s.1 (level entry) = true
  ∧ w_trace (writeLog (H := sample_builtins) entry s).2 = w_trace s.2.
Proof.
  intros s entry.
  split; [reflexivity|]. split; [reflexivity|]. split; [reflexivity|].
  refine (proj1 (proj2 (sampler_extremes (H := sample_builtins) entry s
            eq_refl eq_refl) _ eq_refl eq_refl _ _) _);
    by vm_compute.
Defined.

(** ** Output routing (lines 421-446) *)

(** X6. Resolving an output configuration twice under the same terminal
    state gives what resolving it once gives (so a child Logger keeps its
    parent's routing); the custom output is always kept. In auto mode
    exactly one of console and file is active: the console alone on a
    terminal, the file alone (the configured one, or [./logs/app.log])
    otherwise. Outside auto mode the file is kept as configured and the
    console is on unless configured off. *)
Theorem resolveOutputConfig_idempotent (o : LogOutputConfig) (w : World) :
  let r := resolveOutputConfig o w in
  resolveOutputConfig r w = r
  ∧ out_custom r = out_custom o
  ∧ match out_auto o with
    | Some true =>
      out_console r = Some (isTTY w)
      ∧ out_file r =
          if isTTY w then None
          else Some (default (default_file (js "./logs/app.log")) (out_file o))
    | _ =>
      out_console r = Some (default true (out_console o))
      ∧ out_file r = out_file o
    end.
Proof.
  unfold resolveOutputConfig.
  destruct (out_auto o) as [[|]|] eqn:Ea; cbn [out_auto out_custom out_console
    out_file]; rewrite ?Ea.
  - destruct (isTTY w) eqn:Et; cbn [out_auto out_custom out_console out_file];
      rewrite ?Et; cbn [out_auto out_custom out_console out_file];
      repeat split; by destruct (out_file o).
  - repeat split; by destruct (out_console o).
  - repeat split; by destruct (out_console o).
Qed.

(** ** A Logger without open file (lines 720, 765, 787, 1119-1143) *)

Lemma no_file_io_refl s : no_file_io s s.
Proof. exists []. by rewrite app_nil_r. Qed.

Lemma no_file_io_trans s1 s2 s3 :
  no_file_io s1 s2 → no_file_io s2 s3 → no_file_io s1 s3.
Proof.
  intros (e1 & T1 & F1) (e2 & T2 & F2). exists (e1 ++ e2). split.
  - by rewrite T2, T1, app_assoc.
  - by apply Forall_app.
Qed.

Lemma no_file_io_emit lg lg' w e :
  file_event e = false → no_file_io (lg, w) (lg', emit e w).
Proof. intros He. exists [e]. split; [done|]. by apply Forall_singleton. Qed.

Lemma no_file_io_logger lg lg' lg'' w w' :
  no_file_io (lg, w) (lg', w') → no_file_io (lg, w) (lg'', w').
Proof. done. Qed.

Section NoFile.
Context `{Builtins}.

Lemma dispatch_no_writer fe lg w :
  fileWriter lg = None →
  (dispatch fe (lg, w)).1 = lg ∧ no_file_io (lg, w) (dispatch fe (lg, w)).
Proof.
  intros Hw. unfold dispatch.
  assert (H1 : (write_console fe (lg, w)).1 = lg
               ∧ no_file_io (lg, w) (write_console fe (lg, w))).
  { unfold write_console. destruct (truthy_bool _).
    - split; [done|]. by apply no_file_io_emit.
    - split; [done|apply no_file_io_refl]. }
  destruct (write_console fe (lg, w)) as [lg1 w1]. destruct H1 as [E1 N1].
  cbn [fst] in E1. subst lg1.
  assert (H2 : write_file fe (lg, w1) = (lg, w1)).
  { unfold write_file. rewrite Hw. by destruct (out_file _). }
  rewrite H2. unfold write_custom.
  destruct (out_custom _) as [sink|]; [|done].
  destruct (sink _).
  - split; [done|]. eapply no_file_io_trans; [exact N1|].
    by apply no_file_io_emit.
  - split; [done|]. eapply no_file_io_trans; [exact N1|].
    match goal with
    | |- no_file_io _ (_, console_out _ _ (emit ?e _)) =>
      apply no_file_io_trans with (lg, emit e w1);
        [by apply no_file_io_emit|]
    end.
    by apply no_file_io_emit.
Qed.

Lemma writeLog_no_writer entry lg w :
  fileWriter lg = None →
  let s' := writeLog entry (lg, w) in
  fileWriter s'.1 = None ∧ fileHandle s'.1 = fileHandle lg
  ∧ filePath s'.1 = filePath lg ∧ config s'.1 = config lg
  ∧ no_file_io (lg, w) s'.
Proof.
  intros Hw s'. subst s'. unfold writeLog. cbn [fst].
  destruct (negb (shouldLog _ _)); [by repeat split; try apply no_file_io_refl|].
  destruct (negb (shouldFilterByTags _ _));
    [by repeat split; try apply no_file_io_refl|].
  unfold shouldSample.
  destruct (cfg_sampling (config lg)) as [sa|].
  - destruct (match levels sa with Some (_ :: _) => _ | _ => _ end).
    + cbn [negb fst]. destruct (dispatch_no_writer
        (truncateMessageIfNeeded lg (merge_entry lg entry)) lg w Hw)
        as [-> N]. by repeat split.
    + cbn [Math_random fst snd]. destruct (Qlt_bool _ _); cbn [negb fst].
      * set (lg1 := set_logCount _ lg). set (w1 := Build_World _ _ _ _ _ _ _ _ _ _ _).
        destruct (dispatch_no_writer
          (truncateMessageIfNeeded lg1 (merge_entry lg entry)) lg1 w1 Hw)
          as [-> N]. by repeat split.
      * repeat split; try done. exists []. split; [|done].
        by rewrite app_nil_r.
  - cbn [negb fst]. destruct (dispatch_no_writer
      (truncateMessageIfNeeded lg (merge_entry lg entry)) lg w Hw)
      as [-> N]. by repeat split.
Qed.

Lemma log_no_writer l msg d e lg w :
  fileWriter lg = None →
  let s' := log l msg d e (lg, w) in
  fileWriter s'.1 = None ∧ fileHandle s'.1 = fileHandle lg
  ∧ filePath s'.1 = filePath lg ∧ config s'.1 = config lg
  ∧ no_file_io (lg, w) s'.
Proof.
  intros Hw. rewrite log_unfold.
  exact (writeLog_no_writer _ lg (Date_now w).2 Hw).
Qed.

Lemma endPerformance_no_writer id l lg w :
  fileWriter lg = None →
  let s' := endPerformance id l (lg, w) in
  fileWriter s'.1 = None ∧ fileHandle s'.1 = fileHandle lg
  ∧ filePath s'.1 = filePath lg ∧ config s'.1 = config lg
  ∧ no_file_io (lg, w) s'.
Proof.
  intros Hw. destruct (assoc_get id (performanceData lg)) as [p|] eqn:E.
  - rewrite (endPerformance_found id l lg w p E).
    match goal with
    | |- context [log l ?m ?d None (?lg1, ?w1)] =>
      destruct (log_no_writer l m d None lg1 w1 Hw) as (A & B & C & D & N)
    end.
    cbn [fst snd fileWriter fileHandle filePath config set_performanceData].
    by repeat split.
  - unfold endPerformance. rewrite E. unfold Logger_warn.
    by apply log_no_writer.
Qed.

Lemma step_no_file c s :
  no_file s.1 → no_file (step c s).1 ∧ no_file_io s (step c s).
Proof.
  destruct s as [lg w]. cbn [fst]. intros (Hw & Hh & Hp).
  destruct c; cbn [step fst snd].
  - destruct (log_no_writer l msg d e lg w Hw) as (A & B & C & _ & N).
    split; [|exact N]. split; [exact A|]. split; congruence.
  - by split; [|(exists []; split; [by rewrite app_nil_r|done])].
  - by split; [|(exists []; split; [by rewrite app_nil_r|done])].
  - split; [|(exists []; split; [by rewrite app_nil_r|done])]. unfold addTag.
    by destruct (bool_decide _).
  - by split; [|(exists []; split; [by rewrite app_nil_r|done])].
  - by split; [|(exists []; split; [by rewrite app_nil_r|done])].
  - by split; [|(exists []; split; [by rewrite app_nil_r|done])].
  - by split; [|(exists []; split; [by rewrite app_nil_r|done])].
  - destruct (endPerformance_no_writer id l lg w Hw) as (A & B & C & _ & N).
    split; [|exact N]. split; [exact A|]. split; congruence.
  - unfold time_rotation_tick, rotateLog. cbn [fst]. rewrite Hp.
    split; [|destruct (out_file _); [destruct (_ && _)|];
               (exists []; split; [by rewrite app_nil_r|done])].
    by destruct (out_file _); [destruct (_ && _)|].
  - unfold close.
    destruct (timeRotationTimerId lg) as [t|]; unfold close_writer;
      cbn [fileWriter set_timeRotationTimerId]; rewrite Hw;
      unfold close_handle; cbn [fileHandle set_timeRotationTimerId];
      rewrite Hh.
    + split; [done|]. by apply no_file_io_emit.
    + split; [done|]. (exists []; split; [by rewrite app_nil_r|done]).
Qed.

Lemma run_no_file calls s :
  no_file s.1 → no_file (run calls s).1 ∧ no_file_io s (run calls s).
Proof.
  revert s. induction calls as [|c calls IH]; intros s Hn.
  - split; [done|apply no_file_io_refl].
  - cbn [run fold_left]. destruct (step_no_file c s Hn) as [Hn' N].
    destruct (IH (step c s) Hn') as [Hn'' N'].
    split; [exact Hn''|]. by eapply no_file_io_trans.
Qed.

End NoFile.



(** ** Refused paths (lines 517-540) *)

(** X8. A log path containing [..] is refused at construction: the only
    thing the constructor does with it is to report it on the console
    (and to arm the rotation timer when time rotation is configured); no
    directory is created and no file opened, then or in any later sequence
    of calls and timer firings. *)
Theorem traversal_path_never_opened `{Builtins} (cfg : LoggerConfig)
  (w : World) (f : FileConfig) (calls : list Call) :
  out_file (cfg_output (initial_config cfg w)) = Some f →
  includes (path f) (js "..") = true →
  let s := constructor cfg w in
  no_file s.1
  ∧ (∃ timer,
       w_trace s.2 =
         w_trace w
         ++ [EConsole (console_method (getConsoleForOutput w) c_error)
               [ArgStr (MSG_path_rejected ++ path f)]]
         ++ timer
       ∧ (timer = [] ∨ ∃ ms, timer = [ESetInterval ms]))
  ∧ no_file (run calls s).1
  ∧ ∃ evs, w_trace (run calls s).2 = w_trace w ++ evs
           ∧ Forall (fun e => file_event e = false) evs.
Proof.
  intros Hf Hdots s.
  assert (Hs : no_file s.1 ∧
    ∃ timer,
       w_trace s.2 =
         w_trace w
         ++ [EConsole (console_method (getConsoleForOutput w) c_error)
               [ArgStr (MSG_path_rejected ++ path f)]]
         ++ timer
       ∧ (timer = [] ∨ ∃ ms, timer = [ESetInterval ms])).
  { subst s. unfold constructor.
    cbn [config updateFilterSets set_tagSets]. rewrite Hf.
    unfold initFileOutput.
    cbn [config updateFilterSets set_tagSets]. rewrite Hf.
    unfold isAllowedLogPath. rewrite Hdots. cbn [negb].
    destruct (_ && _).
    - split; [by repeat split|]. eexists [_]. split; [|right; eauto].
      cbn [startTimeRotation snd emit w_trace console_out].
      by rewrite <- app_assoc.
    - split; [by repeat split|]. exists []. split; [|by left]. done. }
  destruct Hs as [Hn (timer & Ht & Htimer)].
  split; [exact Hn|]. split; [by exists timer|].
  destruct (run_no_file calls s Hn) as [Hn' (evs & Te & Fe)].
  split; [exact Hn'|].
  exists (([EConsole (console_method (getConsoleForOutput w) c_error)
             [ArgStr (MSG_path_rejected ++ path f)]] ++ timer) ++ evs).
  split.
  - by rewrite Te, Ht, <- !app_assoc.
  - apply Forall_app. split; [|exact Fe]. apply Forall_app. split.
    + by apply Forall_singleton.
    + destruct Htimer as [->|[ms ->]]; [done|]. by apply Forall_singleton.
Qed.

Lemma traversal_path_never_opened_witness :
  let f := default_file (js "logs/../../etc/app.log") in
  let s := constructor traversal_config sample_world in
  out_file (cfg_output (initial_config traversal_config sample_world)) = Some f
  ∧ includes (path f) (js "..") = true
  ∧ no_file s.1
  ∧ w_trace (log (H := sample_builtins) Info (js "x") None None s).2 =
      [EConsole (Native c_error) [ArgStr (MSG_path_rejected ++ path f)];
       EConsole (Native c_log) [ArgStr (js "T0 [INFO] x")]].
Proof.
  intros f s. split; [reflexivity|]. split; [reflexivity|].
  split; [|reflexivity].
  exact (proj1 (traversal_path_never_opened (H := sample_builtins)
                  traversal_config sample_world f [] eq_refl eq_refl)).
Defined.

(** ** Teardown (lines 1119-1143) *)


(** ** A failing file write (lines 720-758) *)

Lemma getConsoleForOutput_emit e w :
  getConsoleForOutput (emit e w) = getConsoleForOutput w.
Proof. done. Qed.

(** X10. When the write to the log file fails, the failure is reported on
    the console and nothing else happens to the file: the writer is kept,
    no size check and no rotation follow; the custom output is still
    called with the line, after the report. *)
Theorem file_write_failure_isolated `{Builtins} (fe : LogEntry) (lg : Logger)
  (w : World) (f : FileConfig) (fd : nat) :
  out_file (cfg_output (config lg)) = Some f →
  fileWriter lg = Some fd →
  next_fails (write_console fe (lg, w)).2 = true →
  let s' := dispatch fe (lg, w) in
  s'.1 = lg
  ∧ ∃ after,
      w_trace s'.2 =
        w_trace (write_console fe (lg, w)).2
        ++ [EWrite fd (file_line fe (lg, w)) false;
            EConsole (console_method (getConsoleForOutput w) c_error)
              [ArgStr (js "logger file output error"); ArgThrown]]
        ++ after
      ∧ Forall (fun e => file_event e = false) after
      ∧ (∀ sink, out_custom (cfg_output (config lg)) = Some sink →
           ESink (console_line fe (lg, w)) (sink (console_line fe (lg, w)))
           ∈ after).
Proof.
  intros Hf Hw Hfail s'. subst s'. unfold dispatch.
  pose proof (write_console_logger fe (lg, w)) as L1.
  pose proof (write_console_frame fe (lg, w)) as F1.
  destruct (write_console fe (lg, w)) as [lg1 w1]. cbn [fst snd] in *.
  subst lg1.
  assert (Hc : getConsoleForOutput w1 = getConsoleForOutput w)
    by apply (getConsoleForOutput_frame _ _ F1).
  assert (H2 : write_file fe (lg, w1) =
               (lg, console_out c_error
                      [ArgStr (js "logger file output error"); ArgThrown]
                      (emit (EWrite fd (file_line fe (lg, w)) false) w1))).
  { unfold write_file. rewrite Hf, Hw, Hfail. done. }
  rewrite H2. unfold write_custom. cbn [fst snd].
  fold (console_line fe (lg, w)).
  assert (Hline : ∀ w', w_NO_COLOR w' = w_NO_COLOR w →
                  w_isTerminal w' = w_isTerminal w →
                  console_line fe (lg, w') = console_line fe (lg, w)).
  { intros w' E1 E2. unfold console_line, shouldUseColor, isTTY. cbn [fst snd].
    by rewrite E1, E2. }
  destruct (out_custom (cfg_output (config lg))) as [sink|].
  - match goal with
    | |- context [sink ?line] =>
      replace line with (console_line fe (lg, w))
        by (symmetry; apply Hline;
            [apply (fr_NO_COLOR _ _ F1) | apply (fr_isTerminal _ _ F1)])
    end.
    destruct (sink (console_line fe (lg, w))) eqn:Es.
    + split; [done|]. eexists [_]. split; [|split].
      * unfold console_out. rewrite !getConsoleForOutput_emit, Hc.
        cbn [snd emit w_trace]. by rewrite <- !app_assoc.
      * by apply Forall_singleton.
      * intros sink' [= <-]. rewrite Es. apply elem_of_cons. by left.
    + split; [done|]. eexists [_; _]. split; [|split].
      * unfold console_out. rewrite !getConsoleForOutput_emit, Hc.
        cbn [snd emit w_trace]. by rewrite <- !app_assoc.
      * by repeat constructor.
      * intros sink' [= <-]. rewrite Es. apply elem_of_cons. by left.
  - split; [done|]. exists []. split; [|split; [done|done]].
    unfold console_out. rewrite !getConsoleForOutput_emit, Hc.
    cbn [snd emit w_trace]. by rewrite app_nil_r, <- !app_assoc.
Qed.

Lemma file_write_failure_isolated_witness :
  let w := with_fail (fun n => Nat.eqb n 2) sample_world in
  let s := constructor rotating_config w in
  let fe := sample_entry Info (js "x") [] in
  out_file (cfg_output (config s.1)) =
    Some {| path := js "app.log"; rotate := Some true;
            strategy := Some TimeStrategy; maxSize := None;
            maxFiles := Some 3%Z; rotateInterval := None; compress := None |}
  ∧ fileWriter s.1 = Some 0
  ∧ next_fails (write_console (H := sample_builtins) fe s).2 = true
  ∧ (dispatch (H := sample_builtins) fe s).1 = s.1.
Proof.
  intros w s fe. split; [reflexivity|]. split; [reflexivity|].
  split; [reflexivity|].
  exact (proj1 (file_write_failure_isolated (H := sample_builtins) fe s.1 s.2
                  _ 0 eq_refl eq_refl eq_refl)).
Defined.

(** ** Timers (lines 989-1085) *)

Lemma assoc_delete_set_fresh {V} (m : list (jstring * V)) k v :
  assoc_get k m = None → assoc_delete k (assoc_set k v m) = m.
Proof.
  intros Hn. rewrite assoc_delete_set. apply assoc_delete_notin.
  by apply assoc_get_None_notin.
Qed.

Lemma endPerformance_forgets `{Builtins} id l s :
  assoc_get id (performanceData (endPerformance id l s).1) = None.
Proof.
  destruct s as [lg w]. rewrite endPerformance_performanceData.
  destruct (assoc_get id (performanceData lg)) eqn:E; [|done].
  apply assoc_get_delete_eq.
Qed.



(** X12. A timer can be ended once: after [endPerformance] has found and
    logged an id, ending the same id again is the "id not found" warning.
    And a timer evicted by [startPerformance] at capacity is gone the same
    way: ending the oldest id afterwards is that warning, while every other
    id (but the new one) is still mapped to its record. *)
Theorem timer_ends_once `{Builtins} (id : jstring) (l l' : LogLevel)
  (lg : Logger) (w : World) :
  (is_Some (assoc_get id (performanceData lg)) →
     let s1 := endPerformance id l (lg, w) in
     endPerformance id l' s1 =
     Logger_warn (MSG_perf_id_missing ++ id) None None s1)
  ∧ (∀ op d k v rest,
       performanceData lg = (k, v) :: rest →
       (Z.of_nat (length (performanceData lg)) >= MAX_PERFORMANCE_ENTRIES)%Z →
       let r := startPerformance op d (lg, w) in
       k ≠ r.1 →
       endPerformance k l r.2 =
         Logger_warn (MSG_perf_id_missing ++ k) None None r.2
       ∧ ∀ k', k' ≠ k → k' ≠ r.1 →
           assoc_get k' (performanceData r.2.1) =
           assoc_get k' (performanceData lg)).
Proof.
  split.
  - intros _ s1.
    pose proof (endPerformance_forgets id l (lg, w)) as Hgone. fold s1 in Hgone.
    destruct s1 as [lg1 w1]. cbn [fst] in Hgone.
    unfold endPerformance at 1. by rewrite Hgone.
  - intros op d k v rest Hm Hfull r Hne.
    assert (Hpd : performanceData r.2.1 =
                  assoc_set r.1 {| operation := op;
                                   startTime := w_clock w (S (w_ticks w));
                                   endTime := None; duration := None;
                                   perf_data := d |}
                    (assoc_delete k (performanceData lg))).
    { subst r. unfold startPerformance.
      cbn [Date_now Math_random fst snd performanceData set_performanceData
           w_clock w_ticks].
      unfold evict_oldest.
      destruct (Z.geb_spec (Z.of_nat (length (performanceData lg)))
                  MAX_PERFORMANCE_ENTRIES); [|lia].
      by rewrite Hm. }
    split.
    + destruct r.2 as [lg1 w1] eqn:E. cbn [fst] in Hpd.
      unfold endPerformance.
      rewrite Hpd, assoc_get_set_ne by congruence.
      by rewrite assoc_get_delete_eq.
    + intros k' Hk Hk'. rewrite Hpd.
      rewrite assoc_get_set_ne by congruence.
      by apply assoc_get_delete_ne.
Qed.

Lemma timer_ends_once_witness :
  let r := startPerformance (H := sample_builtins) (js "op") None
             (constructor empty_config sample_world) in
  let s1 := endPerformance (H := sample_builtins) r.1 Info r.2 in
  let lg := set_performanceData full_map
              (constructor empty_config sample_world).1 in
  let r' := startPerformance (H := sample_builtins) (js "op") None
              (lg, sample_world) in
  is_Some (assoc_get r.1 (performanceData r.2.1))
  ∧ w_trace (endPerformance (H := sample_builtins) r.1 Info s1).2 =
      w_trace (Logger_warn (H := sample_builtins)
                 (MSG_perf_id_missing ++ r.1) None None s1).2
  ∧ (Z.of_nat (length (performanceData lg)) >= MAX_PERFORMANCE_ENTRIES)%Z
  ∧ js "t0" ≠ r'.1
  ∧ w_trace (endPerformance (H := sample_builtins) (js "t0") Info r'.2).2 =
      w_trace (Logger_warn (H := sample_builtins)
                 (MSG_perf_id_missing ++ js "t0") None None r'.2).2.
Proof.
  intros r s1 lg r'.
  assert (Hs : is_Some (assoc_get r.1 (performanceData r.2.1)))
    by (eexists; reflexivity).
  assert (Hfull : (Z.of_nat (length (performanceData lg))
                   >= MAX_PERFORMANCE_ENTRIES)%Z) by (by vm_compute).
  assert (Hne : js "t0" ≠ r'.1) by (by vm_compute).
  split; [exact Hs|]. split.
  { exact (f_equal (fun x : St => w_trace x.2)
             (proj1 (timer_ends_once (H := sample_builtins) r.1 Info Info
                       r.2.1 r.2.2) Hs)). }
  split; [exact Hfull|]. split; [exact Hne|].
  exact (f_equal (fun x : St => w_trace x.2)
           (proj1 (proj2 (timer_ends_once (H := sample_builtins) (js "t0")
                     Info Info lg sample_world)
                   (js "op") None (js "t0") _ _ eq_refl Hfull Hne))).
Defined.

(** ** Child loggers (lines 972-980) *)

Lemma constructor_logCount cfg w : logCount (constructor cfg w).1 = 0%Z.
Proof.
  unfold constructor. cbn [config updateFilterSets set_tagSets].
  destruct (out_file _) as [f|]; [|done].
  match goal with
  | |- context [initFileOutput (?l, w)] =>
    pose proof (fr_logCount _ _ (initFileOutput_frame (l, w))) as Hi;
      destruct (initFileOutput (l, w)) as [lg1 w1]
  end.
  cbn [fst logCount] in Hi. by destruct (_ && _).
Qed.

Lemma spread_nil_r {V} (a : list (jstring * V)) : spread a [] = a.
Proof. done. Qed.

Lemma resolveOutputConfig_same_terminal o w w' :
  isTTY w' = isTTY w → resolveOutputConfig o w' = resolveOutputConfig o w.
Proof. intros Ht. unfold resolveOutputConfig. by rewrite Ht. Qed.

Lemma resolveOutputConfig_twice o w :
  resolveOutputConfig (resolveOutputConfig o w) w = resolveOutputConfig o w.
Proof.
  unfold resolveOutputConfig.
  destruct (out_auto o) as [[|]|] eqn:Ea; cbn [out_auto]; rewrite ?Ea.
  - destruct (isTTY w) eqn:Et; cbn [out_auto]; by rewrite ?Et.
  - done.
  - done.
Qed.


(** X14. Deriving a child without any override from a constructed Logger,
    while the terminal state is what it was at the parent's construction,
    gives a Logger with exactly the parent's configuration. *)
Theorem child_without_override (cfg : LoggerConfig) (w0 w : World) :
  isTTY w = isTTY w0 →
  let parent := (constructor cfg w0).1 in
  config (child empty_config parent w).1 = config parent.
Proof.
  intros Ht parent. subst parent. unfold child.
  rewrite !constructor_config.
  unfold initial_config at 1.
  cbn [child_config as_LoggerConfig empty_config override opt_level opt_format
       opt_output opt_color opt_showTime opt_showLevel opt_tags opt_context
       opt_filter opt_sampling opt_maxMessageLength from_option id].
  rewrite app_nil_r, spread_nil_r, !(constructor_config cfg w0).
  cbn [initial_config cfg_level cfg_format cfg_output cfg_color cfg_showTime
       cfg_showLevel cfg_tags cfg_context cfg_filter cfg_sampling
       cfg_maxMessageLength from_option id].
  rewrite (resolveOutputConfig_same_terminal _ w0 w Ht).
  by rewrite resolveOutputConfig_twice.
Qed.

Lemma child_without_override_witness :
  let parent := (constructor rotating_config sample_world).1 in
  isTTY sample_world = isTTY sample_world
  ∧ config (child empty_config parent sample_world).1 = config parent.
Proof.
  intros parent. split; [reflexivity|].
  exact (child_without_override rotating_config sample_world sample_world
           eq_refl).
Defined.

Lemma initFileOutput_opens s f :
  out_file (cfg_output (config s.1)) = Some f →
  isAllowedLogPath (path f) = true →
  (∀ n, length (w_trace s.2) ≤ n → w_fail s.2 n = false) →
  ∃ pre,
    (pre = [] ∨ ∃ dir, pre = [EMkdir dir true])
    ∧ w_trace (initFileOutput s).2 = w_trace s.2 ++ pre ++ [EOpen (path f) true]
    ∧ fileHandle (initFileOutput s).1 = Some (length (w_trace s.2 ++ pre))
    ∧ fileWriter (initFileOutput s).1 = Some (length (w_trace s.2 ++ pre))
    ∧ filePath (initFileOutput s).1 = Some (path f)
    ∧ timeRotationTimerId (initFileOutput s).1 = timeRotationTimerId s.1.
Proof.
  destruct s as [lg w]. cbn [fst snd]. intros Hf Hallowed Hok.
  assert (H0 : w_fail w (length (w_trace w)) = false) by (by apply Hok).
  assert (H1 : ∀ e, w_fail w (length (w_trace w ++ [e])) = false).
  { intros e. apply Hok. rewrite length_app. lia. }
  unfold initFileOutput. rewrite Hf, Hallowed. cbn [negb].
  destruct (substring0 (path f) (lastIndexOf (path f) 47)) as [|c dir];
    unfold next_fails; cbn [emit w_fail w_trace]; rewrite ?H0, ?H1;
    cbn [negb].
  - exists []. rewrite app_nil_r. by repeat split; try left.
  - eexists [_]. split; [right; eauto|]. repeat split.
    cbn [snd w_trace emit]. by rewrite <- app_assoc.
Qed.

(** X15. A child derived without output override from a Logger in manual
    mode with an open log file opens the same path again, when the runtime
    lets it: the child holds a handle of its own, different from the
    parent's, on the parent's path, and nothing is closed on the way; two
    writers are then open on one file. *)
Theorem child_opens_second_handle (cfg : LoggerConfig) (lg : Logger)
  (w : World) (f : FileConfig) (fd : nat) :
  opt_output cfg = None →
  out_auto (cfg_output (config lg)) ≠ Some true →
  out_file (cfg_output (config lg)) = Some f →
  isAllowedLogPath (path f) = true →
  (∀ n, length (w_trace w) ≤ n → w_fail w n = false) →
  fileHandle lg = Some fd → fd < length (w_trace w) →
  let c := child cfg lg w in
  ∃ fd' evs,
    fileHandle c.1 = Some fd' ∧ fileWriter c.1 = Some fd' ∧ fd' ≠ fd
    ∧ filePath c.1 = Some (path f)
    ∧ w_trace c.2 = w_trace w ++ evs
    ∧ EOpen (path f) true ∈ evs
    ∧ Forall (fun e => is_close e = false) evs.
Proof.
  intros Hno Hauto Hf Hallowed Hok Hfd Hlt c. subst c.
  unfold child, constructor.
  cbn [config updateFilterSets set_tagSets].
  assert (Hout : out_file (cfg_output (initial_config (child_config cfg lg) w))
                 = Some f).
  { cbn [initial_config child_config cfg_output opt_output as_LoggerConfig].
    rewrite Hno. cbn [override from_option id]. unfold resolveOutputConfig.
    destruct (out_auto (cfg_output (config lg))) as [[|]|]; [done| |];
      by cbn [out_file]. }
  rewrite Hout.
  match goal with
  | |- context [initFileOutput (?l, w)] =>
    destruct (initFileOutput_opens (l, w) f Hout Hallowed Hok)
      as (pre & Hpre & Ht & Hh & Hw & Hp & _);
      destruct (initFileOutput (l, w)) as [lg1 w1]
  end.
  cbn [fst snd] in *.
  assert (Hclose : Forall (fun e => is_close e = false)
                     (pre ++ [EOpen (path f) true])).
  { apply Forall_app. split; [|by apply Forall_singleton].
    destruct Hpre as [->|[dir ->]]; [done|]. by apply Forall_singleton. }
  assert (Hne : length (w_trace w ++ pre) ≠ fd).
  { rewrite length_app. lia. }
  destruct (_ && _).
  - exists (length (w_trace w ++ pre)),
           ((pre ++ [EOpen (path f) true]) ++ [ESetInterval
              (or_number (match out_file (cfg_output (config lg1)) with
                          | Some f0 => rotateInterval f0
                          | None => None
                          end) (24 * 60 * 60 * 1000))]).
    cbn [startTimeRotation fst snd fileHandle fileWriter filePath
         set_timeRotationTimerId emit w_trace].
    split; [exact Hh|]. split; [exact Hw|]. split; [exact Hne|].
    split; [exact Hp|]. split; [by rewrite Ht, <- !app_assoc|]. split.
    + apply elem_of_app. left. apply elem_of_app. right.
      apply elem_of_cons. by left.
    + apply Forall_app. split; [exact Hclose|]. by apply Forall_singleton.
  - exists (length (w_trace w ++ pre)), (pre ++ [EOpen (path f) true]).
    cbn [fst snd]. split; [exact Hh|]. split; [exact Hw|].
    split; [exact Hne|]. split; [exact Hp|]. split; [exact Ht|].
    split; [|exact Hclose].
    apply elem_of_app. right. apply elem_of_cons. by left.
Qed.

Lemma child_opens_second_handle_witness :
  let parent := constructor rotating_config sample_world in
  let c := child empty_config parent.1 parent.2 in
  let f := {| path := js "app.log"; rotate := Some true;
              strategy := Some TimeStrategy; maxSize := None;
              maxFiles := Some 3%Z; rotateInterval := None;
              compress := None |} in
  out_file (cfg_output (config parent.1)) = Some f
  ∧ fileHandle parent.1 = Some 0
  ∧ 0 < length (w_trace parent.2)
  ∧ fileHandle c.1 = Some 2
  ∧ ∃ fd' evs, fileHandle c.1 = Some fd' ∧ fd' ≠ 0
               ∧ filePath c.1 = Some (js "app.log")
               ∧ w_trace c.2 = w_trace parent.2 ++ evs.
Proof.
  intros parent c f.
  assert (Hlt : 0 < length (w_trace parent.2)) by (vm_compute; lia).
  split; [reflexivity|]. split; [reflexivity|]. split; [exact Hlt|].
  split; [reflexivity|].
  destruct (child_opens_second_handle empty_config parent.1 parent.2 f 0)
    as (fd' & evs & A & _ & B & C & D & _).
  - reflexivity.
  - discriminate.
  - reflexivity.
  - reflexivity.
  - intros n _. reflexivity.
  - reflexivity.
  - exact Hlt.
  - exists fd', evs. by repeat split.
Defined.

(** ** Console forwarders (lines 1168-1227) *)




(** ** One descriptor per Logger (lines 528-567, 786-840, 1119-1143) *)

Lemma held_from_snoc i t e acc :
  held_from i (t ++ [e]) acc =
  held_update (i + length t) e (held_from i t acc).
Proof.
  revert i acc. induction t as [|x t IH]; intros i acc; cbn [held_from app].
  - by rewrite Nat.add_0_r.
  - rewrite IH. cbn [length]. by rewrite Nat.add_succ_r.
Qed.

Lemma held_snoc t e : held (t ++ [e]) = held_update (length t) e (held t).
Proof. unfold held. by rewrite held_from_snoc. Qed.

Lemma handles_ok_emit lg w e :
  keeps_descriptors e = true → handles_ok (lg, w) → handles_ok (lg, emit e w).
Proof.
  intros He [Hw Hh]. split; [done|]. cbn [fst snd emit w_trace] in *.
  rewrite held_snoc, Hh. by destruct e as [| |? []| | | | | | | |].
Qed.

Lemma handles_ok_same lg lg' w w' :
  fileWriter lg' = fileWriter lg → fileHandle lg' = fileHandle lg →
  w_trace w' = w_trace w → handles_ok (lg, w) → handles_ok (lg', w').
Proof.
  intros E1 E2 E3 [Hw Hh]. split; cbn [fst snd] in *; congruence.
Qed.

Lemma close_both_handles s :
  handles_ok s →
  handles_ok (close_handle (close_writer s))
  ∧ fileHandle (close_handle (close_writer s)).1 = None.
Proof.
  destruct s as [lg w]. intros [Hw Hh]. cbn [fst snd] in *.
  unfold close_writer, close_handle. rewrite Hw.
  destruct (fileHandle lg) as [fd|] eqn:E;
    cbn [fileHandle set_fileWriter set_fileHandle]; rewrite ?E.
  - split; [|done]. split; [done|].
    cbn [fst snd emit w_trace fileHandle set_fileHandle].
    rewrite !held_snoc, Hh. cbn [held_update option_list].
    change (option_list (Some fd)) with [fd].
    rewrite filter_cons_False by (intros Hne; by apply Hne). done.
  - split; [|done]. split; cbn [fst snd]; [congruence|by rewrite Hh, E].
Qed.

Lemma initFileOutput_handles s :
  fileHandle s.1 = None → handles_ok s → handles_ok (initFileOutput s).
Proof.
  destruct s as [lg w]. cbn [fst]. intros Hnone Hok.
  unfold initFileOutput. destruct (out_file _) as [f|]; [|done].
  destruct (negb (isAllowedLogPath _)); [by apply handles_ok_emit|].
  assert (Hopen : ∀ w1, handles_ok (lg, w1) →
    handles_ok
      (if negb (negb (next_fails w1))
       then (lg, console_out c_error
                   [ArgStr (MSG_cannot_open ++ path f ++ js ":"); ArgThrown]
                   (emit (EOpen (path f) (negb (next_fails w1))) w1))
       else (set_filePath (Some (path f))
               (set_fileWriter (Some (length (w_trace w1)))
                  (set_fileHandle (Some (length (w_trace w1))) lg)),
             emit (EOpen (path f) (negb (next_fails w1))) w1))).
  { intros w1 Hok1. destruct (next_fails w1); cbn [negb].
    - by apply handles_ok_emit, handles_ok_emit.
    - destruct Hok1 as [_ Hh1]. split; [done|].
      cbn [fst snd emit w_trace fileHandle set_filePath set_fileWriter
           set_fileHandle] in *.
      rewrite held_snoc, Hh1, Hnone. done. }
  destruct (substring0 (path f) (lastIndexOf (path f) 47)) as [|c dir].
  - cbn [negb]. by apply Hopen.
  - destruct (next_fails w) eqn:Em; cbn [negb].
    + by apply handles_ok_emit, handles_ok_emit.
    + apply Hopen. by apply handles_ok_emit.
Qed.

Lemma shift_backups_handles n p lg w :
  handles_ok (lg, w) → handles_ok (lg, shift_backups n p w).
Proof.
  revert w. induction n as [|k IH]; intros w Hok; [done|].
  cbn [shift_backups]. apply IH. by apply handles_ok_emit.
Qed.

Lemma rotateLog_handles maxFiles compress s :
  handles_ok s → handles_ok (rotateLog maxFiles compress s).
Proof.
  intros Hok. unfold rotateLog.
  destruct (filePath s.1) as [[|c rest]|]; [done| |done].
  destruct (close_both_handles s Hok) as [Hc Hn].
  destruct (close_handle (close_writer s)) as [lg w]. cbn [fst] in Hn.
  set (w3 := shift_backups _ _ w).
  assert (H3 : handles_ok (lg, w3)) by (by apply shift_backups_handles).
  destruct (negb (next_fails w3)).
  - apply initFileOutput_handles; [done|].
    destruct compress; by repeat apply handles_ok_emit.
  - apply initFileOutput_handles; [done|]. by repeat apply handles_ok_emit.
Qed.

Lemma checkSizeRotation_handles s :
  handles_ok s → handles_ok (checkSizeRotation s).
Proof.
  destruct s as [lg w]. intros Hok. unfold checkSizeRotation.
  destruct (out_file _) as [f|]; [|done].
  destruct (filePath lg) as [[|c rest]|]; [done| |done].
  destruct (next_fails w); cbn [negb].
  - by repeat apply handles_ok_emit.
  - destruct (_ >=? _)%Z.
    + apply rotateLog_handles. by apply handles_ok_emit.
    + by apply handles_ok_emit.
Qed.

Section HandleFacts.
Context `{Builtins}.

Lemma dispatch_handles fe s : handles_ok s → handles_ok (dispatch fe s).
Proof.
  intros Hok. unfold dispatch.
  assert (H1 : handles_ok (write_console fe s)).
  { destruct s as [lg w]. unfold write_console.
    destruct (truthy_bool _); [by apply handles_ok_emit|done]. }
  assert (H2 : handles_ok (write_file fe (write_console fe s))).
  { destruct (write_console fe s) as [lg w]. unfold write_file.
    destruct (out_file _) as [f|]; [|done].
    destruct (fileWriter lg) as [fd|]; [|done].
    destruct (next_fails w); cbn [negb].
    - by repeat apply handles_ok_emit.
    - destruct (truthy_bool _); [|by apply handles_ok_emit].
      destruct (default _ _); first
        [ apply checkSizeRotation_handles; by apply handles_ok_emit
        | by apply handles_ok_emit ]. }
  destruct (write_file fe (write_console fe s)) as [lg w].
  unfold write_custom. destruct (out_custom _) as [sink|]; [|done].
  destruct (sink _); by repeat apply handles_ok_emit.
Qed.

Lemma writeLog_handles entry s : handles_ok s → handles_ok (writeLog entry s).
Proof.
  intros Hok. unfold writeLog.
  destruct (negb (shouldLog _ _)); [done|].
  destruct (negb (shouldFilterByTags _ _)); [done|].
  assert (Hs : handles_ok (shouldSample (level (merge_entry s.1 entry)) s).2).
  { destruct s as [lg w]. unfold shouldSample.
    destruct (cfg_sampling _) as [sa|]; [|done].
    destruct (match levels sa with Some (_ :: _) => _ | _ => _ end); [done|].
    cbn [Math_random snd]. by apply (handles_ok_same lg _ w). }
  destruct (shouldSample _ s) as [sampled s1]. cbn [snd] in Hs.
  destruct (negb sampled); [done|]. by apply dispatch_handles.
Qed.

Lemma log_handles l msg d e s : handles_ok s → handles_ok (log l msg d e s).
Proof.
  destruct s as [lg w]. intros Hok. rewrite log_unfold.
  apply writeLog_handles. by apply (handles_ok_same lg _ w).
Qed.

Lemma endPerformance_handles id l s :
  handles_ok s → handles_ok (endPerformance id l s).
Proof.
  destruct s as [lg w]. intros Hok.
  destruct (assoc_get id (performanceData lg)) as [p|] eqn:E.
  - rewrite (endPerformance_found id l lg w p E).
    match goal with
    | |- context [log l ?m ?d None (?lg1, ?w1)] =>
      assert (H1 : handles_ok (log l m d None (lg1, w1)))
        by (apply log_handles; by apply (handles_ok_same lg _ w));
        destruct (log l m d None (lg1, w1)) as [lg2 w2]
    end.
    by apply (handles_ok_same lg2 _ w2).
  - unfold endPerformance. rewrite E. by apply log_handles.
Qed.

Lemma step_handles c s : handles_ok s → handles_ok (step c s).
Proof.
  destruct s as [lg w]. intros Hok. destruct c; cbn [step fst snd].
  - by apply log_handles.
  - by apply (handles_ok_same lg _ w).
  - by apply (handles_ok_same lg _ w).
  - unfold addTag. by destruct (bool_decide _).
  - by apply (handles_ok_same lg _ w).
  - by apply (handles_ok_same lg _ w).
  - by apply (handles_ok_same lg _ w).
  - by apply (handles_ok_same lg _ w).
  - by apply endPerformance_handles.
  - unfold time_rotation_tick. destruct (out_file _); [|done].
    destruct (_ && _); [by apply rotateLog_handles|done].
  - unfold close.
    apply close_both_handles.
    destruct (timeRotationTimerId lg); [|done].
    apply (handles_ok_same lg _ (emit (EClearInterval n) w));
      [done|done|done|]. by apply handles_ok_emit.
Qed.

Lemma run_handles calls s : handles_ok s → handles_ok (run calls s).
Proof.
  revert s. induction calls as [|c calls IH]; intros s Hok; [done|].
  cbn [run fold_left]. apply IH. by apply step_handles.
Qed.

End HandleFacts.

Lemma constructor_handles cfg w :
  held (w_trace w) = [] → handles_ok (constructor cfg w).
Proof.
  intros Hw. unfold constructor.
  set (lg0 := updateFilterSets _).
  assert (H0 : handles_ok (lg0, w)) by (by split).
  destruct (out_file _) as [f|]; [|done].
  assert (H1 : handles_ok (initFileOutput (lg0, w)))
    by (by apply initFileOutput_handles).
  destruct (_ && _); [|exact H1].
  destruct (initFileOutput (lg0, w)) as [lg1 w1]. unfold startTimeRotation.
  apply (handles_ok_same lg1 _ (emit (ESetInterval
           (or_number match out_file (cfg_output (config lg1)) with
                      | Some f0 => rotateInterval f0
                      | None => None
                      end (24 * 60 * 60 * 1000))) w1)); [done|done|done|].
  by apply handles_ok_emit.
Qed.



(** ** Size-based rotation (lines 720-781) *)

Lemma rotateLog_starts_with_close maxFiles compress lg w c rest fd :
  filePath lg = Some (c :: rest) → fileWriter lg = Some fd →
  ∃ ok after,
    w_trace (rotateLog maxFiles compress (lg, w)).2 =
    w_trace w ++ EWriterClose fd ok :: after.
Proof.
  intros Hp Hw.
  set (s1 := (set_fileWriter None lg, emit (EWriterClose fd (negb (next_fails w))) w)).
  assert (Hs1 : close_writer (lg, w) = s1)
    by (unfold close_writer; by rewrite Hw).
  assert (Hrot : rotateLog maxFiles compress (lg, w)
                 = rotateLog maxFiles compress s1).
  { assert (Hs1' : close_writer s1 = s1) by done.
    unfold rotateLog. change (filePath s1.1) with (filePath lg).
    cbn [fst]. by rewrite Hp, Hs1, Hs1'. }
  rewrite Hrot.
  destruct (fr_trace _ _ (rotateLog_frame maxFiles compress s1)) as [after Ha].
  exists (negb (next_fails w)), after. rewrite Ha.
  cbn [s1 snd emit w_trace]. by rewrite <- app_assoc.
Qed.

(** X19. After a successful write to the log file, with rotation on and a
    strategy other than ["time"], the file is stat'ed once. A size below
    [maxSize] (10 MiB when not configured) ends the call there, with the
    writer kept; a size equal to or above it starts a rotation, whose first
    act is to close that writer. With the ["time"] strategy the write is
    all that happens. *)
Theorem size_rotation_threshold `{Builtins} (fe : LogEntry) (lg : Logger)
  (w : World) (f : FileConfig) (fd : nat) (p : jstring) :
  out_file (cfg_output (config lg)) = Some f →
  truthy_bool (rotate f) = true →
  fileWriter lg = Some fd →
  filePath lg = Some p → p ≠ [] →
  next_fails w = false →
  let written := emit (EWrite fd (file_line fe (lg, w)) true) w in
  let size := w_size w (S (length (w_trace w))) in
  (strategy f = Some TimeStrategy → write_file fe (lg, w) = (lg, written))
  ∧ (strategy f ≠ Some TimeStrategy → next_fails written = false →
     ((size < default (10 * 1024 * 1024) (maxSize f))%Z →
        write_file fe (lg, w) = (lg, emit (EStat p (Some size)) written))
     ∧ ((size >= default (10 * 1024 * 1024) (maxSize f))%Z →
          ∃ ok after,
            w_trace (write_file fe (lg, w)).2 =
            w_trace w
            ++ [EWrite fd (file_line fe (lg, w)) true; EStat p (Some size);
                EWriterClose fd ok]
            ++ after)).
Proof.
  intros Hf Hr Hw Hp Hne Hok written size.
  destruct p as [|c rest]; [done|].
  assert (Hwritten : written =
            emit (EWrite fd (formatLog fe TextFormat false
                               (cfg_showTime (config lg))
                               (cfg_showLevel (config lg)) ++ [10%N]) true) w)
    by reflexivity.
  assert (Hsz : w_size written (length (w_trace written)) = size).
  { subst size written. cbn [emit w_size w_trace].
    by rewrite length_app, Nat.add_1_r. }
  assert (Htr : w_trace written =
                w_trace w ++ [EWrite fd (file_line fe (lg, w)) true])
    by reflexivity.
  unfold write_file. rewrite Hf, Hw, Hok, Hr. cbn [negb].
  rewrite <- Hwritten. clearbody written. clear Hwritten.
  split; [by intros ->|].
  intros Hs Hok2.
  assert (Hcheck : ∀ a b : St,
            match default SizeStrategy (strategy f) with
            | SizeStrategy | SizeTimeStrategy => a
            | TimeStrategy => b
            end = a).
  { intros a b. by destruct (strategy f) as [[]|]. }
  rewrite Hcheck.
  unfold checkSizeRotation. rewrite Hf, Hp, Hok2, Hsz. cbn [negb].
  split.
  - intros Hlt. destruct (Z.geb_spec size (default (10 * 1024 * 1024)%Z
                                              (maxSize f))); [lia|done].
  - intros Hge. destruct (Z.geb_spec size (default (10 * 1024 * 1024)%Z
                                              (maxSize f))); [|lia].
    destruct (rotateLog_starts_with_close (default 5%Z (maxFiles f))
                (default false (compress f)) lg
                (emit (EStat (c :: rest) (Some size)) written) c rest fd Hp Hw)
      as (ok & after & Ht).
    exists ok, after. rewrite Ht.
    cbn [emit w_trace]. rewrite Htr. by rewrite <- !app_assoc.
Qed.

Lemma size_rotation_threshold_witness :
  let s := constructor size_rotating_config sample_world in
  let fe := sample_entry Info (js "x") [] in
  fileWriter s.1 = Some 0
  ∧ filePath s.1 = Some (js "app.log")
  ∧ next_fails s.2 = false
  ∧ w_trace (write_file (H := sample_builtins) fe s).2 =
      w_trace s.2
      ++ [EWrite 0 (js "T0 [INFO] x" ++ [10%N]) true;
          EStat (js "app.log") (Some 0%Z)]
  ∧ (write_file (H := sample_builtins) fe s).1 = s.1.
Proof.
  intros s fe. repeat (split; [reflexivity|]).
  destruct (size_rotation_threshold (H := sample_builtins) fe s.1 s.2
              {| path := js "app.log"; rotate := Some true;
                 strategy := None; maxSize := Some 100%Z;
                 maxFiles := None; rotateInterval := None;
                 compress := None |} 0 (js "app.log")
              eq_refl eq_refl eq_refl eq_refl) as [_ Hsize];
    [discriminate|reflexivity|].
  destruct Hsize as [Hbelow _]; [discriminate|reflexivity|].
  exact (f_equal fst (Hbelow ltac:(by vm_compute))).
Defined.

(** ** Failure to open the log file (lines 528-567) *)

(** X21. When the log path is allowed and creating the directory or
    opening the file throws, [initFileOutput] leaves the Logger as it was
    (no handle, writer or path is recorded) and prints one error naming the
    path. If [mkdir] throws, [open] is not attempted. *)
Theorem initFileOutput_failure (lg : Logger) (w : World) (f : FileConfig) :
  out_file (cfg_output (config lg)) = Some f →
  isAllowedLogPath (path f) = true →
  let dir := substring0 (path f) (lastIndexOf (path f) 47%N) in
  (next_fails w = true →
     (initFileOutput (lg, w)).1 = lg
     ∧ w_trace (initFileOutput (lg, w)).2 =
       w_trace w
       ++ [match dir with
           | [] => EOpen (path f) false
           | _ :: _ => EMkdir dir false
           end;
           open_failure_report (path f) w])
  ∧ (dir ≠ [] → next_fails w = false →
     w_fail w (S (length (w_trace w))) = true →
     (initFileOutput (lg, w)).1 = lg
     ∧ w_trace (initFileOutput (lg, w)).2 =
       w_trace w
       ++ [EMkdir dir true; EOpen (path f) false;
           open_failure_report (path f) w]).
Proof.
  intros Hf Ha dir. unfold initFileOutput. rewrite Hf, Ha. cbn [negb].
  fold dir. split.
  - intros Hfail. destruct dir as [|c rest] eqn:Hd.
    + cbn [negb]. rewrite Hfail. cbn [negb]. split; [done|].
      unfold console_out, open_failure_report. cbn [snd emit w_trace].
      by rewrite <- app_assoc.
    + rewrite Hfail. cbn [negb]. split; [done|].
      unfold console_out, open_failure_report. cbn [snd emit w_trace].
      by rewrite <- app_assoc.
  - intros Hne Hok Hfail. destruct dir as [|c rest] eqn:Hd; [done|].
    rewrite Hok. cbn [negb].
    assert (Hnext : next_fails (emit (EMkdir (c :: rest) true) w) = true).
    { unfold next_fails. cbn [emit w_trace w_fail].
      by rewrite length_app, Nat.add_1_r. }
    rewrite Hnext. cbn [negb]. split; [done|].
    unfold console_out, open_failure_report. cbn [snd emit w_trace].
    by rewrite <- !app_assoc.
Qed.

Lemma initFileOutput_failure_witness :
  let lg := (constructor nested_path_config first_call_fails).1 in
  next_fails first_call_fails = true
  ∧ no_file lg
  ∧ (initFileOutput (lg, first_call_fails)).1 = lg
  ∧ w_trace (initFileOutput (lg, first_call_fails)).2 =
    [EMkdir (js "logs") false;
     open_failure_report (js "logs/app.log") first_call_fails].
Proof.
  intros lg. split; [reflexivity|]. split; [by repeat split|].
  exact (proj1 (initFileOutput_failure lg first_call_fails
                  (default_file (js "logs/app.log")) eq_refl eq_refl)
               eq_refl).
Defined.

(** ** What a log call leaves alone (lines 681-759, 850-865) *)

Section LogFrame.
Context `{Builtins}.

Lemma io_frame_settings s s' : io_frame s s' → settings_kept s s'.
Proof. intros []. by repeat split. Qed.

Lemma shouldSample_state l s :
  let s1 := (shouldSample l s).2 in
  settings_kept s s1
  ∧ w_ticks s1.2 = w_ticks s.2
  ∧ w_trace s1.2 = w_trace s.2
  ∧ ((logCount s1.1 = logCount s.1 ∧ w_draws s1.2 = w_draws s.2)
     ∨ (logCount s1.1 = (logCount s.1 + 1)%Z
        ∧ w_draws s1.2 = S (w_draws s.2))).
Proof.
  destruct s as [lg w]. unfold shouldSample.
  destruct (cfg_sampling (config lg)) as [sa|];
    [|by repeat split; try left].
  destruct (match levels sa with
            | Some (x :: xs) => negb (bool_decide (l ∈ x :: xs))
            | _ => false
            end); [by repeat split; try left|].
  cbn. by repeat split; try right.
Qed.

Lemma writeLog_cases entry s :
  writeLog entry s = s
  ∨ io_frame (shouldSample (level (merge_entry s.1 entry)) s).2
             (writeLog entry s).
Proof.
  unfold writeLog. destruct (negb (shouldLog _ _)); [by left|].
  destruct (negb (shouldFilterByTags _ _)); [by left|].
  right. destruct (shouldSample _ s) as [sampled s1]. cbn [snd].
  destruct sampled; cbn [negb]; [apply dispatch_frame|apply io_frame_refl].
Qed.

Lemma log_settings l msg d e s : settings_kept s (log l msg d e s).
Proof.
  destruct s as [lg w]. rewrite log_unfold.
  set (entry := {| timestamp := _ |}).
  set (s0 := (lg, (Date_now w).2)).
  assert (K0 : settings_kept (lg, w) s0) by by repeat split.
  destruct (writeLog_cases entry s0) as [-> | Hfr]; [exact K0|].
  destruct (shouldSample_state (level (merge_entry s0.1 entry)) s0)
    as (K1 & _).
  apply io_frame_settings in Hfr.
  destruct K0 as (?&?&?&?&?&?&?), K1 as (?&?&?&?&?&?&?),
    Hfr as (?&?&?&?&?&?&?).
  repeat split; congruence.
Qed.

End LogFrame.

(** X22. A log call reads the clock exactly once and changes nothing of the
    Logger's settings: configuration, running timers, tag sets, rotation
    timer and the console bindings are as before, and the calls already
    made stay in the trace. The sample counter moves only together with a
    draw of a random number, by one at most. *)
Theorem log_leaves_settings `{Builtins} (l : LogLevel) (msg : jstring)
  (d : option json) (e : option JsError) (s : St) :
  let s' := log l msg d e s in
  settings_kept s s'
  ∧ w_ticks s'.2 = S (w_ticks s.2)
  ∧ w_trace s.2 `prefix_of` w_trace s'.2
  ∧ ((logCount s'.1 = logCount s.1 ∧ w_draws s'.2 = w_draws s.2)
     ∨ (logCount s'.1 = (logCount s.1 + 1)%Z
        ∧ w_draws s'.2 = S (w_draws s.2))).
Proof.
  destruct s as [lg w]. cbv zeta. rewrite log_unfold.
  set (entry := {| timestamp := _ |}).
  set (s0 := (lg, (Date_now w).2)).
  assert (H0 : settings_kept (lg, w) s0 ∧ w_ticks s0.2 = S (w_ticks w)
               ∧ w_trace s0.2 = w_trace w ∧ logCount s0.1 = logCount lg
               ∧ w_draws s0.2 = w_draws w) by by repeat split.
  destruct H0 as (K0 & T0 & R0 & L0 & D0).
  cbn [fst snd].
  destruct (writeLog_cases entry s0) as [-> | Hfr].
  - split; [exact K0|]. split; [exact T0|].
    split; [by rewrite R0|]. left. by split.
  - destruct (shouldSample_state (level (merge_entry s0.1 entry)) s0)
      as (K1 & T1 & R1 & C1).
    set (s1 := (shouldSample _ s0).2) in *.
    destruct Hfr. destruct K0 as (?&?&?&?&?&?&?), K1 as (?&?&?&?&?&?&?).
    split; [repeat split; congruence|].
    split; [congruence|].
    split; [by rewrite <- R0, <- R1|].
    destruct C1 as [[? ?]|[? ?]]; [left|right]; split; congruence.
Qed.


(** ** The cached tag sets (lines 599-607, 1090-1093) *)

Lemma fresh_iff lg :
  filter_sets_fresh lg ↔
  includeTagsSet lg = tag_set (getFilter lg ≫= includeTags)
  ∧ excludeTagsSet lg = tag_set (getFilter lg ≫= excludeTags).
Proof.
  unfold filter_sets_fresh, updateFilterSets, set_tagSets, getFilter.
  destruct lg as [c fh fw fp pd lc tm inc exc]. cbn. split.
  - intros Hf. injection Hf as Hi He. by split.
  - by intros [-> ->].
Qed.

Lemma filter_kept_fresh lg lg' :
  filter_kept lg lg' → filter_sets_fresh lg → filter_sets_fresh lg'.
Proof.
  intros (Hf & Hi & He) Hfr. apply fresh_iff. apply fresh_iff in Hfr.
  destruct Hfr as [Hi' He']. rewrite Hf, Hi, He. by split.
Qed.

Lemma settings_filter_kept s s' : settings_kept s s' → filter_kept s.1 s'.1.
Proof.
  intros (Hc & _ & Hi & He & _). unfold filter_kept, getFilter.
  by rewrite Hc.
Qed.

Section FilterFacts.
Context `{Builtins}.

Lemma endPerformance_filter_kept id l s :
  filter_kept s.1 (endPerformance id l s).1.
Proof.
  destruct s as [lg w].
  destruct (assoc_get id (performanceData lg)) as [p|] eqn:E.
  - rewrite (endPerformance_found id l lg w p E).
    match goal with
    | |- context [log l ?m ?d None (?lg1, ?w1)] =>
      pose proof (settings_filter_kept _ _
                    (log_settings l m d None (lg1, w1))) as H1;
        destruct (log l m d None (lg1, w1)) as [lg2 w2]
    end.
    exact H1.
  - unfold endPerformance. rewrite E.
    apply settings_filter_kept, log_settings.
Qed.

Lemma step_filter c s :
  filter_sets_fresh s.1 →
  filter_sets_fresh (step c s).1
  ∧ getFilter (step c s).1 =
    match c with CallSetFilter f => Some f | _ => getFilter s.1 end.
Proof.
  destruct s as [lg w]. cbn [fst]. intros Hfr.
  assert (Hkept : ∀ s' : St, filter_kept lg s'.1 →
            filter_sets_fresh s'.1 ∧ getFilter s'.1 = getFilter lg).
  { intros s' Hk. split; [by eapply filter_kept_fresh|apply Hk]. }
  destruct c as [l msg d e|l|x|t|t|f|sa|op d|id l| |]; cbn [step fst snd].
  - apply Hkept, (settings_filter_kept (lg, w)), log_settings.
  - apply (Hkept (_, w)). by repeat split.
  - apply (Hkept (_, w)). by repeat split.
  - apply (Hkept (_, w)). unfold addTag.
    by destruct (bool_decide _); repeat split.
  - apply (Hkept (_, w)). by repeat split.
  - split; [apply setFilter_fresh|done].
  - apply (Hkept (_, w)). by repeat split.
  - apply Hkept. destruct (startPerformance op d (lg, w)) as [id [lg' w']] eqn:E.
    unfold startPerformance in E. cbn in E. injection E as _ <- _.
    by repeat split.
  - apply Hkept, (endPerformance_filter_kept id l (lg, w)).
  - apply Hkept, (settings_filter_kept (lg, w)), io_frame_settings,
      time_rotation_tick_frame.
  - apply Hkept. unfold close.
    set (s0 := match timeRotationTimerId lg with
               | Some t => _ | None => _ end).
    assert (H0 : filter_kept lg s0.1)
      by (subst s0; by destruct (timeRotationTimerId lg); repeat split).
    pose proof (settings_filter_kept _ _
                  (io_frame_settings _ _
                     (io_frame_trans _ _ _ (close_writer_frame s0)
                        (close_handle_frame (close_writer s0))))) as H1.
    destruct H0 as (?&?&?), H1 as (?&?&?). repeat split; congruence.
Qed.

Lemma run_filter calls s :
  filter_sets_fresh s.1 →
  filter_sets_fresh (run calls s).1
  ∧ getFilter (run calls s).1 = last_filter calls (getFilter s.1).
Proof.
  revert s. induction calls as [|c calls IH]; intros s Hfr; [done|].
  cbn [run last_filter fold_left].
  destruct (step_filter c s Hfr) as [Hfr' Hg].
  destruct (IH (step c s) Hfr') as [Hfr'' Hg'].
  split; [exact Hfr''|]. unfold run in Hg'. rewrite Hg'. unfold last_filter.
  by rewrite Hg.
Qed.

End FilterFacts.

(** X20. The two tag sets kept beside the configuration never go stale:
    after any sequence of calls and timer firings on a constructed Logger,
    the filter in force is the argument of the last [setFilter] (the
    constructor's when there was none), and the include and exclude sets
    are exactly the sets of that filter's non-empty tag lists. *)
Theorem tag_sets_follow_filter `{Builtins} (cfg : LoggerConfig) (w : World)
  (calls : list Call) :
  let lg := (run calls (constructor cfg w)).1 in
  getFilter lg = last_filter calls (opt_filter cfg)
  ∧ includeTagsSet lg = tag_set (getFilter lg ≫= includeTags)
  ∧ excludeTagsSet lg = tag_set (getFilter lg ≫= excludeTags).
Proof.
  cbv zeta.
  destruct (run_filter calls (constructor cfg w) (constructor_fresh cfg w))
    as [Hfr Hg].
  split; [|by apply fresh_iff].
  rewrite Hg. unfold getFilter. by rewrite constructor_config.
Qed.
